(** * sngrep: the filter engine and the SIP storage core

    A shallow embedding of [src/filter.c] (the per-field call filters and
    the cached per-call verdict) and of the declarations of [src/sip.h]
    (the SIP method enumeration, the validation results, the call list
    header).  The bodies of the functions that [sip.h] only declares live in
    [sip.c], which is not part of the sources at hand; where a property is
    about one of them the definition is written from the specification and
    says so in its comment.

    Conventions.  A C [int] is a [Z]; a C string is a [string] and [NULL] is
    [None]; a [GSequence] is a [list] in sequence order; a function that
    writes through a pointer returns the updated object next to its result. *)

From Stdlib Require Import ZArith String Ascii List Bool Lia.
From stdpp Require Import base tactics option list strings gmap.

Local Open Scope Z_scope.

(** ** The GLib regular expression interface

    [filter.c] uses GLib's [GRegex] through two entry points only:
    [g_regex_new], which yields [NULL] when the pattern does not compile, and
    [g_regex_match].  The matcher itself is outside the repository, so it is
    an interface here.  The [bool] argument of [g_regex_new] is the
    [G_REGEX_CASELESS] compile flag. *)
Class GRegexEngine := {
  GRegex : Type;
  g_regex_new : string -> bool -> option GRegex;
  g_regex_match : GRegex -> string -> bool
}.

(** ** Messages and calls

    [sip_call.h] and [sip_msg.h] are not among the sources.  The two records
    carry the fields the specification's data model lists and that
    [filter.c] reads: [call->msgs], [call->filtered], the payload of a
    message. *)
Module Sip.

(** Modelled from the spec: the Message record of the data model (missing
    [sip_msg.h]); [reqresp] is the method id or the response status code. *)
Record sip_msg_t := {
  reqresp : Z;
  cseq : Z;
  sip_from : string;
  sip_to : string;
  to_tag : bool;
  msg_callid : string;
  msg_xcallid : string;
  payload : string;
  src : string;
  dst : string
}.

(** Modelled from the spec: the Call record of the data model (missing
    [sip_call.h]).  [filtered] is the cached filter verdict as [filter.c]
    uses it: [-1] unknown, [0] pass, [1] reject.  [xcallid] is the literal
    X-Call-ID and [xcall] the back-reference to the call it names, by that
    call's [index], once resolved. *)
Record sip_call_t := {
  index : Z;
  callid : string;
  xcallid : string;
  xcall : option Z;
  msgs : list sip_msg_t;
  filtered : Z;
  locked : bool
}.

Definition call_set_filtered (v : Z) (call : sip_call_t) : sip_call_t :=
  {| index := index call; callid := callid call; xcallid := xcallid call;
     xcall := xcall call; msgs := msgs call; filtered := v;
     locked := locked call |}.

Definition call_set_xcall (x : option Z) (call : sip_call_t) : sip_call_t :=
  {| index := index call; callid := callid call; xcallid := xcallid call;
     xcall := x; msgs := msgs call; filtered := filtered call;
     locked := locked call |}.

(** [call_msg_count]: the length of the call's message sequence. *)
Definition call_msg_count (call : sip_call_t) : Z :=
  Z.of_nat (length (msgs call)).

Definition msg_get_payload (msg : sip_msg_t) : string := payload msg.

(** The attribute ids [filter_check_call] asks for (the closed attribute id
    set of the specification). *)
Inductive sip_attr_id :=
  | SIP_ATTR_CALLID | SIP_ATTR_XCALLID | SIP_ATTR_FROM | SIP_ATTR_TO
  | SIP_ATTR_SRC | SIP_ATTR_DST | SIP_ATTR_METHOD | SIP_ATTR_CSEQ
  | SIP_ATTR_DATE | SIP_ATTR_TIME | SIP_ATTR_SIPFROM | SIP_ATTR_SIPTO
  | SIP_ATTR_MSGCNT | SIP_ATTR_RTPCNT | SIP_ATTR_STATE | SIP_ATTR_CONVDUR
  | SIP_ATTR_TOTALDUR | SIP_ATTR_REASON | SIP_ATTR_WARNING | SIP_ATTR_TRANSPORT.

(** The verdict values of [call->filtered]. *)
Definition FILTERED_UNKNOWN : Z := -1.
Definition FILTERED_PASS : Z := 0.
Definition FILTERED_REJECT : Z := 1.

(** [enum validate_result] of [sip.h]. *)
Definition VALIDATE_NOT_SIP : Z := -1.
Definition VALIDATE_PARTIAL_SIP : Z := 0.
Definition VALIDATE_COMPLETE_SIP : Z := 1.
Definition VALIDATE_MULTIPLE_SIP : Z := 2.

(** [struct _SStorageSortOpts]. *)
Record SStorageSortOpts := {
  sort_by : sip_attr_id;
  sort_asc : bool
}.

(** [struct _SStorageCaptureOpts]; [limit] is a [guint]. *)
Record SStorageCaptureOpts := {
  limit : N;
  rotate : bool;
  rtp : bool;
  outfile : option string
}.

Section WithEngine.
Context `{engine : GRegexEngine}.

(** [struct _SStorageMatchOpts]. *)
Record SStorageMatchOpts := {
  invite : bool;
  complete : bool;
  mexpr : option string;
  minvert : bool;
  micase : bool;
  mregex : option GRegex
}.

(** [struct sip_call_list], the header of the call list.  The field [list]
    of the C struct is [calls_list] here (the name [list] is the type's); it
    owns the calls; [active] and [callids] refer to the same call objects in
    C and name them here by their [index].  The twelve compiled header patterns
    [reg_method] ... [reg_warning] belong to the header parser, which is not
    embedded, and are left out. *)
Record sip_call_list := {
  match_opts : SStorageMatchOpts;
  capture : SStorageCaptureOpts;
  sort : SStorageSortOpts;
  calls_list : list sip_call_t;
  active : list Z;
  changed : bool;
  last_index : Z;
  callids : gmap string Z
}.

(** [sip_calls_iterator]: the calls of the list from its first one. *)
Definition sip_calls_iterator (calls : sip_call_list) : list sip_call_t :=
  calls_list calls.

Definition calls_set_list (l : list sip_call_t) (calls : sip_call_list)
  : sip_call_list :=
  {| match_opts := match_opts calls; capture := capture calls;
     sort := sort calls; calls_list := l; active := active calls;
     changed := changed calls; last_index := last_index calls;
     callids := callids calls |}.

End WithEngine.

End Sip.
Export Sip.

(** ** filter.c *)
Module Filter.

(** Modelled from the spec: the filter type enumeration of the missing
    [filter.h], the closed set FROM, TO, SOURCE, DESTINATION, METHOD,
    PAYLOAD, CALL_LIST_LINE in that order, with [FILTER_COUNT] after the
    last one. *)
Definition FILTER_SIPFROM : Z := 0.
Definition FILTER_SIPTO : Z := 1.
Definition FILTER_SOURCE : Z := 2.
Definition FILTER_DESTINATION : Z := 3.
Definition FILTER_METHOD : Z := 4.
Definition FILTER_PAYLOAD : Z := 5.
Definition FILTER_CALL_LIST : Z := 6.
Definition FILTER_COUNT : Z := 7.

Section WithEngine.
Context `{engine : GRegexEngine}.

(** [filter_t]: the expression text and its compiled form. *)
Record filter_t := {
  expr : option string;
  regex : option GRegex
}.

(** The process-wide state [filter.c] works on: its own table
    [filter_t filters[FILTER_COUNT]] and the call list of [sip.c], which it
    reaches through [sip_calls_iterator]. *)
Record globals := {
  filters : list filter_t;
  calls : sip_call_list
}.

(** [filter_t filters[FILTER_COUNT] = { }]: every entry zeroed. *)
Definition filters_init : list filter_t :=
  replicate (Z.to_nat FILTER_COUNT) {| expr := None; regex := None |}.

(** [filters[i]] for an index inside the array. *)
Definition filters_at (g : globals) (i : Z) : filter_t :=
  default {| expr := None; regex := None |} (filters g !! Z.to_nat i).

Definition set_filters (fs : list filter_t) (g : globals) : globals :=
  {| filters := fs; calls := calls g |}.

Definition set_calls (cl : sip_call_list) (g : globals) : globals :=
  {| filters := filters g; calls := cl |}.

(** [filter_set].  The result is [None] when the C code would store outside
    the [filters] array (a [type] that is no filter type).  Releasing the
    previous expression and pattern has no counterpart here.  With a [NULL]
    expression the C code stores the uninitialised local [regex]; the entry
    is disabled then and the pointer is never read, it is [None] here. *)
Definition filter_set (g : globals) (type : Z) (e : option string)
  : option (Z * globals) :=
  let compiled : Z + option GRegex :=
    match e with
    | Some s =>
        match g_regex_new s true with
        | None => inl 1
        | Some re => inr (Some re)
        end
    | None => inr None
    end in
  match compiled with
  | inl code => Some (code, g)
  | inr re =>
      if bool_decide (0 <= type < FILTER_COUNT) then
        Some (0, set_filters
                   (<[Z.to_nat type := {| expr := e; regex := re |}]> (filters g)) g)
      else None
  end.

(** [filter_get]. *)
Definition filter_get (g : globals) (type : Z) : option string :=
  expr (filters_at g type).

(** [filter_check_expr]: [0] when the data matches, [1] otherwise
    ([g_regex_match] answers [FALSE] on a [NULL] pattern). *)
Definition filter_check_expr (filter : filter_t) (data : string) : Z :=
  match regex filter with
  | Some re => if g_regex_match re data then 0 else 1
  | None => 1
  end.

(** [filter_reset_calls]: force filter evaluation of every call. *)
Definition filter_reset_calls (g : globals) : globals :=
  set_calls
    (calls_set_list
       (map (call_set_filtered (-1)) (sip_calls_iterator (calls g))) (calls g))
    g.

(** *** filter_check_call

    The function works on one call through a pointer and calls
    [filter_check_expr] along the way.  Its state is the call (only
    [call->filtered] is written) and, so that "no filter was evaluated" can
    be said, the list of the [filter_check_expr] calls made so far, each
    with the filter index and the data it was given. *)
Record check_state := {
  st_call : sip_call_t;
  st_evals : list (Z * string)
}.

Definition Checking (A : Type) : Type := check_state -> A * check_state.

Definition ret {A} (a : A) : Checking A := fun s => (a, s).

Definition bind {A B} (m : Checking A) (k : A -> Checking B) : Checking B :=
  fun s => let (a, s') := m s in k a s'.

Notation "'let*' x ':=' m 'in' k" := (bind m (fun x => k))
  (at level 10, x name, m at level 100, k at level 200, only parsing).
Notation "m ';;;' k" := (bind m (fun _ => k))
  (at level 100, k at level 200, right associativity, only parsing).

Definition get_call : Checking sip_call_t := fun s => (st_call s, s).

(** [call->filtered = v]. *)
Definition set_filtered (v : Z) : Checking unit :=
  fun s => (tt, {| st_call := call_set_filtered v (st_call s);
                   st_evals := st_evals s |}).

(** [filter_check_expr(filters[i], data)], recorded. *)
Definition check_expr (i : Z) (filter : filter_t) (data : string) : Checking Z :=
  fun s => (filter_check_expr filter data,
            {| st_call := st_call s; st_evals := st_evals s ++ [(i, data)] |}).

(** How one turn of the [for] loop over the filter types ends. *)
Inductive loop_ctl := Continue | Break | Return (r : bool).

(** The two accessors the [switch] calls are defined outside [filter.c]:
    [call_get_attribute] ([sip_call.h]) and, for the call list line,
    [call_list_line_text] on the panel [ui_find_by_type(PANEL_CALL_LIST)].
    Each stands for the text it leaves in the zeroed buffer [data]. *)
Variable call_get_attribute : sip_call_t -> sip_attr_id -> string.
Variable call_list_line_text : sip_call_t -> string.

(** The [switch (i)]: the filtered field copied to [data]; [None] is the
    [default] branch.  For [FILTER_PAYLOAD] the buffer stays zeroed. *)
Definition filter_field (i : Z) (call : sip_call_t) : option string :=
  if i =? FILTER_SIPFROM then Some (call_get_attribute call SIP_ATTR_SIPFROM)
  else if i =? FILTER_SIPTO then Some (call_get_attribute call SIP_ATTR_SIPTO)
  else if i =? FILTER_SOURCE then Some (call_get_attribute call SIP_ATTR_SRC)
  else if i =? FILTER_DESTINATION then Some (call_get_attribute call SIP_ATTR_DST)
  else if i =? FILTER_METHOD then Some (call_get_attribute call SIP_ATTR_METHOD)
  else if i =? FILTER_PAYLOAD then Some ""%string
  else if i =? FILTER_CALL_LIST then Some (call_list_line_text call)
  else None.

(** The inner loop over [call->msgs]: the first payload that matches sets
    [call->filtered = 0] and leaves the loop. *)
Fixpoint payload_loop (i : Z) (filter : filter_t) (ms : list sip_msg_t)
  : Checking unit :=
  match ms with
  | [] => ret tt
  | msg :: rest =>
      let* r := check_expr i filter (msg_get_payload msg) in
      if r =? 0 then set_filtered 0 else payload_loop i filter rest
  end.

(** The body of the loop over the filter types, for the type [i]. *)
Definition filter_step (g : globals) (i : Z) : Checking loop_ctl :=
  match expr (filters_at g i) with
  | None => ret Continue
  | Some _ =>
      let* call := get_call in
      match filter_field i call with
      | None => ret (Return false)
      | Some data =>
          if i =? FILTER_PAYLOAD then
            set_filtered 1 ;;;
            payload_loop i (filters_at g i) (msgs call) ;;;
            let* call' := get_call in
            if filtered call' =? 1 then ret Break else ret Continue
          else
            let* r := check_expr i (filters_at g i) data in
            if negb (r =? 0) then set_filtered 1 ;;; ret Break
            else ret Continue
      end
  end.

(** [for (i = 0; i < FILTER_COUNT; i++)], over the indices still to visit.
    [Some r] is a [return r] from inside the loop, [None] the loop left by
    its end or by [break]. *)
Fixpoint filter_loop (g : globals) (todo : list Z) : Checking (option bool) :=
  match todo with
  | [] => ret None
  | i :: rest =>
      let* c := filter_step g i in
      match c with
      | Continue => filter_loop g rest
      | Break => ret None
      | Return r => ret (Some r)
      end
  end.

Definition filter_check_call_body (g : globals) : Checking bool :=
  let* call := get_call in
  if call_msg_count call =? 0 then ret false
  else if negb (filtered call =? -1) then ret (filtered call =? 0)
  else
    set_filtered 0 ;;;
    let* r := filter_loop g (seqZ 0 FILTER_COUNT) in
    match r with
    | Some b => ret b
    | None => let* call' := get_call in ret (filtered call' =? 0)
    end.

(** [filter_check_call(item, user_data)]: the returned [gboolean], and the
    call and the record of evaluations after it. *)
Definition filter_check_call (g : globals) (call : sip_call_t)
  : bool * check_state :=
  filter_check_call_body g {| st_call := call; st_evals := [] |}.

(** *** What the filters are to decide

    The notions the properties of [filter_check_call] are stated with. *)

(** The pattern of a filter matches a text. *)
Definition filter_matches (filter : filter_t) (data : string) : bool :=
  match regex filter with
  | Some re => g_regex_match re data
  | None => false
  end.

(** A call matches the filter of type [i], in the words of the
    specification: for PAYLOAD at least one message payload matches the
    pattern, for every other type the extracted field does. *)
Definition call_matches (g : globals) (i : Z) (call : sip_call_t) : bool :=
  if i =? FILTER_PAYLOAD then
    existsb (fun msg => filter_matches (filters_at g i) (msg_get_payload msg))
            (msgs call)
  else
    filter_matches (filters_at g i) (default ""%string (filter_field i call)).

(** A filter is enabled when its expression is set. *)
Definition filter_enabled (g : globals) (i : Z) : bool :=
  bool_decide (is_Some (expr (filters_at g i))).

(** The call gets past the filter of type [i]: the filter is off, or the
    call matches it. *)
Definition call_passes (g : globals) (i : Z) (call : sip_call_t) : bool :=
  negb (filter_enabled g i) || call_matches g i call.

(** At least one message of the call has a payload the PAYLOAD pattern
    matches. *)
Definition some_payload_matches (g : globals) (call : sip_call_t) : Prop :=
  exists msg, msg ∈ msgs call /\
    filter_matches (filters_at g FILTER_PAYLOAD) (msg_get_payload msg) = true.

End WithEngine.
End Filter.

(** ** The SIP methods ([sip.h], [sip.c]) *)
Module Methods.

(** [enum sip_methods] of [sip.h]. *)
Inductive sip_methods :=
  | SIP_METHOD_REGISTER | SIP_METHOD_INVITE | SIP_METHOD_SUBSCRIBE
  | SIP_METHOD_NOTIFY | SIP_METHOD_OPTIONS | SIP_METHOD_PUBLISH
  | SIP_METHOD_MESSAGE | SIP_METHOD_CANCEL | SIP_METHOD_BYE
  | SIP_METHOD_ACK | SIP_METHOD_PRACK | SIP_METHOD_INFO
  | SIP_METHOD_REFER | SIP_METHOD_UPDATE.

(** The value of each enumerator: [SIP_METHOD_REGISTER = 1] and one more for
    each one after it. *)
Definition sip_method_id (m : sip_methods) : Z :=
  match m with
  | SIP_METHOD_REGISTER => 1 | SIP_METHOD_INVITE => 2
  | SIP_METHOD_SUBSCRIBE => 3 | SIP_METHOD_NOTIFY => 4
  | SIP_METHOD_OPTIONS => 5 | SIP_METHOD_PUBLISH => 6
  | SIP_METHOD_MESSAGE => 7 | SIP_METHOD_CANCEL => 8
  | SIP_METHOD_BYE => 9 | SIP_METHOD_ACK => 10
  | SIP_METHOD_PRACK => 11 | SIP_METHOD_INFO => 12
  | SIP_METHOD_REFER => 13 | SIP_METHOD_UPDATE => 14
  end.

Definition sip_methods_all : list sip_methods :=
  [ SIP_METHOD_REGISTER; SIP_METHOD_INVITE; SIP_METHOD_SUBSCRIBE;
    SIP_METHOD_NOTIFY; SIP_METHOD_OPTIONS; SIP_METHOD_PUBLISH;
    SIP_METHOD_MESSAGE; SIP_METHOD_CANCEL; SIP_METHOD_BYE; SIP_METHOD_ACK;
    SIP_METHOD_PRACK; SIP_METHOD_INFO; SIP_METHOD_REFER; SIP_METHOD_UPDATE ].

(** Modelled from the spec: the method string of each enumerated method,
    the token of the fixed enumeration REGISTER, INVITE, ..., UPDATE (the
    texts are in the missing [sip.c]). *)
Definition sip_method_text (m : sip_methods) : string :=
  match m with
  | SIP_METHOD_REGISTER => "REGISTER" | SIP_METHOD_INVITE => "INVITE"
  | SIP_METHOD_SUBSCRIBE => "SUBSCRIBE" | SIP_METHOD_NOTIFY => "NOTIFY"
  | SIP_METHOD_OPTIONS => "OPTIONS" | SIP_METHOD_PUBLISH => "PUBLISH"
  | SIP_METHOD_MESSAGE => "MESSAGE" | SIP_METHOD_CANCEL => "CANCEL"
  | SIP_METHOD_BYE => "BYE" | SIP_METHOD_ACK => "ACK"
  | SIP_METHOD_PRACK => "PRACK" | SIP_METHOD_INFO => "INFO"
  | SIP_METHOD_REFER => "REFER" | SIP_METHOD_UPDATE => "UPDATE"
  end.

(** [struct sip_code] of [sip.h]. *)
Record sip_code_t := {
  id : Z;
  text : string
}.

(** Modelled from the spec: the table of request codes of the missing
    [sip.c], one [sip_code] per enumerated method. *)
Definition sip_codes : list sip_code_t :=
  map (fun m => {| id := sip_method_id m; text := sip_method_text m |})
      sip_methods_all.

(** The value of a decimal digit. *)
Definition digit_value (c : ascii) : option Z :=
  let n := nat_of_ascii c in
  if ((48 <=? n) && (n <=? 57))%nat then Some (Z.of_nat n - 48) else None.

(** The number the leading decimal digits of a text spell, after [acc]. *)
Fixpoint leading_number (acc : Z) (s : string) : Z :=
  match s with
  | EmptyString => acc
  | String c rest =>
      match digit_value c with
      | Some d => leading_number (10 * acc + d) rest
      | None => acc
      end
  end.

(** Modelled from the spec: [sip_method_str] (declared in [sip.h], body in
    the missing [sip.c]), the text of a method of the table; [None] is the
    [NULL] of a code that is no method. *)
Definition sip_method_str (method : Z) : option string :=
  text <$> List.find (fun c => id c =? method) sip_codes.

(** Modelled from the spec: [sip_method_from_str] (declared in [sip.h], body
    in the missing [sip.c]): a method text gives its value in
    [sip_methods], a response code its numeric value. *)
Definition sip_method_from_str (method : string) : Z :=
  match List.find (fun c => String.eqb (text c) method) sip_codes with
  | Some c => id c
  | None => leading_number 0 method
  end.

End Methods.

(** ** The payload validator ([sip.c]) *)
Module Validate.

(** The transport kind of a packet, as far as the validator tells them
    apart. *)
Inductive transport_kind := Datagram | Stream.

(** Modelled from the spec: the packet the capture frontend delivers
    (missing [packet.h]): source, destination, transport, timestamp and
    payload bytes. *)
Record packet_t := {
  pkt_src : string;
  pkt_dst : string;
  pkt_transport : transport_kind;
  pkt_ts : Z;
  pkt_payload : string
}.

Section Patterns.
(** The three compiled patterns of [struct sip_call_list] the validator
    works with, each by what it extracts from a payload: [reg_valid] tells
    whether the first line is a request or a response start-line, [reg_cl]
    finds the [N] of a [Content-Length: N] header, [reg_body] finds the
    bytes that follow the header terminator. *)
Variable start_line_matches : string -> bool.
Variable content_length : string -> option nat.
Variable body_after_headers : string -> option string.

(** Modelled from the spec: [sip_validate_packet] (declared in [sip.h], body
    in the missing [sip.c]).  A payload whose first line is no start-line
    is not SIP; a datagram is complete; a stream payload is complete when
    exactly the declared [N] bytes follow the header terminator, multiple
    when bytes remain after them, and partial otherwise. *)
Definition sip_validate_packet (packet : packet_t) : Z :=
  let payload := pkt_payload packet in
  if negb (start_line_matches payload) then VALIDATE_NOT_SIP
  else
    match pkt_transport packet with
    | Datagram => VALIDATE_COMPLETE_SIP
    | Stream =>
        match content_length payload, body_after_headers payload with
        | Some n, Some body =>
            if (String.length body <? n)%nat then VALIDATE_PARTIAL_SIP
            else if (n <? String.length body)%nat then VALIDATE_MULTIPLE_SIP
            else VALIDATE_COMPLETE_SIP
        | _, _ => VALIDATE_PARTIAL_SIP
        end
    end.

End Patterns.
End Validate.

(** ** The call registry ([sip.c])

    [sip.h] declares the registry's entry points and its header
    [struct sip_call_list]; their bodies are in the missing [sip.c].  The
    definitions of this module follow the specification's component design
    of the call registry, step by step.  A packet comes with the message
    record the header parser has made of it. *)
Module Storage.
Import Methods.

Section WithEngine.
Context `{engine : GRegexEngine}.

Definition calls_set_changed (b : bool) (calls : sip_call_list)
  : sip_call_list :=
  {| match_opts := match_opts calls; capture := capture calls;
     sort := sort calls; calls_list := calls_list calls;
     active := active calls; changed := b; last_index := last_index calls;
     callids := callids calls |}.

(** Modelled from the spec: [sip_init], which compiles the match expression
    (honouring [micase]), fails when it does not compile and otherwise
    commits the options over an empty registry. *)
Definition sip_init (capture_options : SStorageCaptureOpts)
    (match_options : SStorageMatchOpts) (sort_options : SStorageSortOpts)
  : option sip_call_list :=
  let start (re : option GRegex) :=
    {| match_opts :=
         {| invite := invite match_options;
            complete := complete match_options;
            mexpr := mexpr match_options;
            minvert := minvert match_options;
            micase := micase match_options;
            mregex := re |};
       capture := capture_options; sort := sort_options;
       calls_list := []; active := []; changed := false; last_index := 0;
       callids := ∅ |} in
  match mexpr match_options with
  | None => Some (start None)
  | Some e =>
      match g_regex_new e (micase match_options) with
      | None => None
      | Some re => Some (start (Some re))
      end
  end.

(** Modelled from the spec: [sip_calls_has_changed] returns the current
    value of [changed] and clears it. *)
Definition sip_calls_has_changed (calls : sip_call_list)
  : bool * sip_call_list :=
  (changed calls, calls_set_changed false calls).

(** Modelled from the spec: [sip_calls_count], the size of the call list. *)
Definition sip_calls_count (calls : sip_call_list) : N :=
  N.of_nat (length (calls_list calls)).

(** Modelled from the spec: [sip_find_by_callid], the look-up in
    [by_callid] and, through it, the call of the list. *)
Definition sip_find_by_callid (calls : sip_call_list) (cid : string)
  : option sip_call_t :=
  k ← callids calls !! cid;
  List.find (fun call => index call =? k) (calls_list calls).

(** Modelled from the spec: [sip_check_match_expression]: with a match
    expression set, the payload must match the compiled pattern, or must
    not match it when [minvert] is set. *)
Definition sip_check_match_expression (calls : sip_call_list)
    (payload : string) : bool :=
  match mexpr (match_opts calls) with
  | None => true
  | Some _ =>
      xorb (match mregex (match_opts calls) with
            | Some re => g_regex_match re payload
            | None => false
            end)
           (minvert (match_opts calls))
  end.

(** Modelled from the spec: the admission of a new call (step 3 of the
    call registry): INVITE only, no dialog already in progress, the match
    expression. *)
Definition admitted (calls : sip_call_list) (msg : sip_msg_t) : bool :=
  negb (invite (match_opts calls) &&
        negb (reqresp msg =? sip_method_id SIP_METHOD_INVITE))
  && negb (complete (match_opts calls) && to_tag msg)
  && sip_check_match_expression calls (payload msg).

(** The message is added at the end of the call's messages; a message added
    to a call invalidates its cached filter verdict (invariant 6 of the
    data model). *)
Definition call_add_message (msg : sip_msg_t) (call : sip_call_t) : sip_call_t :=
  {| index := index call; callid := callid call; xcallid := xcallid call;
     xcall := xcall call; msgs := msgs call ++ [msg];
     filtered := FILTERED_UNKNOWN; locked := locked call |}.

(** The call of index [k], the first one of the list that has it, gets the
    message. *)
Fixpoint add_message_to (k : Z) (msg : sip_msg_t) (l : list sip_call_t)
  : list sip_call_t :=
  match l with
  | [] => []
  | call :: rest =>
      if index call =? k then call_add_message msg call :: rest
      else call :: add_message_to k msg rest
  end.

(** The oldest call that is not locked, taken out of the list; [None] when
    every call is locked. *)
Fixpoint take_oldest_unlocked (l : list sip_call_t)
  : option (sip_call_t * list sip_call_t) :=
  match l with
  | [] => None
  | call :: rest =>
      if locked call then
        match take_oldest_unlocked rest with
        | Some (victim, rest') => Some (victim, call :: rest')
        | None => None
        end
      else Some (call, rest)
  end.

(** A back-reference to the call of index [k] is invalidated. *)
Definition unlink_xcall (k : Z) (call : sip_call_t) : sip_call_t :=
  if bool_decide (xcall call = Some k) then call_set_xcall None call else call.

(** A literal X-Call-ID that names [cid] and is not resolved yet is
    resolved to the call of index [k]. *)
Definition resolve_xcall (cid : string) (k : Z) (call : sip_call_t)
  : sip_call_t :=
  if String.eqb (xcallid call) cid && bool_decide (xcall call = None)
  then call_set_xcall (Some k) call else call.

(** Modelled from the spec: [sip_calls_rotate] evicts the oldest non-locked
    call: it is removed from all indices, [changed] is raised and the
    back-references to it are invalidated.  Locked calls are exempt; when
    every call is locked nothing is evicted. *)
Definition sip_calls_rotate (calls : sip_call_list) : sip_call_list :=
  match take_oldest_unlocked (calls_list calls) with
  | None => calls
  | Some (victim, rest) =>
      {| match_opts := match_opts calls; capture := capture calls;
         sort := sort calls;
         calls_list := map (unlink_xcall (index victim)) rest;
         active := List.filter (fun k => negb (k =? index victim)) (active calls);
         changed := true; last_index := last_index calls;
         callids := delete (callid victim) (callids calls) |}
  end.

(** Step 5 of the call registry: the call is created with the index
    [last_index++], inserted into [by_callid], appended to the list and to
    the active calls, and gets its first message; its X-Call-ID is resolved
    if the call it names is there, and the calls that were waiting for this
    Call-ID are resolved to it.  A new call is not locked and its filter
    verdict is unknown. *)
Definition call_create (calls : sip_call_list) (msg : sip_msg_t)
  : sip_call_list :=
  let k := last_index calls in
  let call :=
    {| index := k; callid := msg_callid msg; xcallid := msg_xcallid msg;
       xcall := if String.eqb (msg_xcallid msg) "" then None
                else callids calls !! msg_xcallid msg;
       msgs := [msg]; filtered := FILTERED_UNKNOWN; locked := false |} in
  {| match_opts := match_opts calls; capture := capture calls;
     sort := sort calls;
     calls_list := map (resolve_xcall (msg_callid msg) k) (calls_list calls)
                   ++ [call];
     active := active calls ++ [k];
     changed := true; last_index := k + 1;
     callids := <[msg_callid msg := k]> (callids calls) |}.

(** Modelled from the spec: [sip_check_packet], steps 1 to 5 of the call
    registry.  The second component is the message on acceptance and
    [None] for a dropped packet. *)
Definition sip_check_packet (calls : sip_call_list) (msg : sip_msg_t)
  : sip_call_list * option sip_msg_t :=
  if String.eqb (msg_callid msg) "" then (calls, None)
  else
    match sip_find_by_callid calls (msg_callid msg) with
    | Some call =>
        (calls_set_changed true
           (calls_set_list
              (add_message_to (index call) msg (calls_list calls)) calls),
         Some msg)
    | None =>
        if negb (admitted calls msg) then (calls, None)
        else if sip_calls_count calls =? limit (capture calls) then
          if rotate (capture calls)
          then (call_create (sip_calls_rotate calls) msg, Some msg)
          else (calls, None)
        else (call_create calls msg, Some msg)
    end%N.

(** The registry after the packets of a list were fed to it in order. *)
Definition feed (calls : sip_call_list) (packets : list sip_msg_t)
  : sip_call_list :=
  fold_left (fun c msg => (sip_check_packet c msg).1) packets calls.



(** Invariant 5 of the data model in the form the registry keeps it: the
    index of every listed call was handed out before [last_index]. *)
Definition indexes_below_last (calls : sip_call_list) : Prop :=
  Forall (fun call => index call < last_index calls) (calls_list calls).

End WithEngine.
End Storage.

(** ** A concrete matcher and concrete accessors

    The theorems below hold for every regular expression engine and every
    attribute accessor.  To run the embedding on concrete calls, this module
    supplies a small engine for literal patterns (a pattern matches the
    strings that contain it; a pattern with a regular expression
    metacharacter is refused, as a pattern with an unbalanced parenthesis is
    by GLib) and the accessor of the specification. *)
Module Literal.
Import Filter.

Definition lower (c : ascii) : ascii :=
  let n := nat_of_ascii c in
  if ((65 <=? n) && (n <=? 90))%nat then ascii_of_nat (n + 32) else c.

Fixpoint lowercase (s : string) : string :=
  match s with
  | EmptyString => EmptyString
  | String c rest => String (lower c) (lowercase rest)
  end.

Fixpoint contains (pat s : string) : bool :=
  String.prefix pat s ||
  match s with
  | EmptyString => false
  | String _ rest => contains pat rest
  end.

Definition is_meta (c : ascii) : bool :=
  existsb (Ascii.eqb c) (list_ascii_of_string "()[]{}*+?|\").

Definition literal_new (pat : string) (caseless : bool) : option (bool * string) :=
  if existsb is_meta (list_ascii_of_string pat) then None
  else Some (caseless, if caseless then lowercase pat else pat).

Definition literal_match (re : bool * string) (data : string) : bool :=
  contains (snd re) (if fst re then lowercase data else data).

#[export] Instance literal_engine : GRegexEngine := {|
  GRegex := bool * string;
  g_regex_new := literal_new;
  g_regex_match := literal_match
|}.

(** Modelled from the spec: the attribute accessor [call_get_attribute] of
    the missing [sip_call.h], for the attributes the filters read: the
    first message of the call gives FROM, TO and the initiating endpoints;
    a call without messages leaves the buffer empty.  Other attributes are
    not rendered here. *)
Definition call_get_attribute (call : sip_call_t) (id : sip_attr_id) : string :=
  match msgs call with
  | [] => ""
  | msg :: _ =>
      match id with
      | SIP_ATTR_SIPFROM => sip_from msg
      | SIP_ATTR_SIPTO => sip_to msg
      | SIP_ATTR_SRC => src msg
      | SIP_ATTR_DST => dst msg
      | SIP_ATTR_CALLID => msg_callid msg
      | SIP_ATTR_XCALLID => msg_xcallid msg
      | _ => ""
      end
  end%string.

(** The call list line of a call: its Call-ID, sender and receiver. *)
Definition call_list_line_text (call : sip_call_t) : string :=
  (callid call ++ " " ++ call_get_attribute call SIP_ATTR_SIPFROM ++ " "
   ++ call_get_attribute call SIP_ATTR_SIPTO)%string.

Definition filter_check_call :=
  Filter.filter_check_call call_get_attribute call_list_line_text.

(** Sample messages and calls. *)
Definition mk_msg (code : Z) (cid from to body : string) : sip_msg_t :=
  {| reqresp := code; cseq := 1; sip_from := from; sip_to := to;
     to_tag := false; msg_callid := cid; msg_xcallid := ""; payload := body;
     src := "10.0.0.1:5060"; dst := "10.0.0.2:5060" |}.

Definition mk_call (i : Z) (cid : string) (ms : list sip_msg_t) (v : Z)
  : sip_call_t :=
  {| index := i; callid := cid; xcallid := ""; xcall := None; msgs := ms;
     filtered := v; locked := false |}.

(** Two dialogs: alice calls carol and hangs up; bob's call to dave is
    answered and still up. *)
Definition alice_msgs : list sip_msg_t :=
  [ mk_msg 2 "a1" "alice@example.org" "carol@example.org"
      "INVITE sip:carol@example.org SIP/2.0";
    mk_msg 200 "a1" "alice@example.org" "carol@example.org"
      "SIP/2.0 200 OK";
    mk_msg 9 "a1" "alice@example.org" "carol@example.org"
      "BYE sip:carol@example.org SIP/2.0" ].

Definition bob_msgs : list sip_msg_t :=
  [ mk_msg 2 "b1" "bob@example.org" "dave@example.org"
      "INVITE sip:dave@example.org SIP/2.0";
    mk_msg 200 "b1" "bob@example.org" "dave@example.org"
      "SIP/2.0 200 OK" ].

Definition call_alice : sip_call_t := mk_call 0 "a1" alice_msgs (-1).
Definition call_bob : sip_call_t := mk_call 1 "b1" bob_msgs (-1).

(** A call record that holds no message and a cached verdict of pass. *)
Definition call_empty : sip_call_t := mk_call 2 "e1" [] 0.

Definition no_calls : sip_call_list :=
  {| match_opts := {| invite := false; complete := false; mexpr := None;
                      minvert := false; micase := false; mregex := None |};
     capture := {| limit := 2; rotate := true; rtp := false; outfile := None |};
     sort := {| sort_by := SIP_ATTR_CALLID; sort_asc := true |};
     calls_list := []; active := []; changed := false; last_index := 0;
     callids := ∅ |}.

(** The process state with no filter set and the given calls listed. *)
Definition with_calls (l : list sip_call_t) : globals :=
  {| filters := filters_init; calls := calls_set_list l no_calls |}.

(** The state after [filter_set(type, e)]. *)
Definition after_filter_set (g : globals) (type : Z) (e : string) : globals :=
  match filter_set g type (Some e) with
  | Some (_, g') => g'
  | None => g
  end.

(** A pass of [filter_check_call] over the listed calls, as a caller that
    displays the list makes it; the verdicts stay in the calls. *)
Definition after_display (g : globals) : globals :=
  set_calls
    (calls_set_list
       (map (fun call => st_call (filter_check_call g call).2)
            (sip_calls_iterator (calls g)))
       (calls g))
    g.

(** FROM filter [alice], both calls displayed once. *)
Definition g_alice : globals :=
  after_display
    (after_filter_set (with_calls [call_alice; call_bob]) FILTER_SIPFROM "alice").

(** Then the FROM filter is changed to [bob]. *)
Definition g_bob : globals := after_filter_set g_alice FILTER_SIPFROM "bob".

(** PAYLOAD filter [bye]. *)
Definition g_bye : globals :=
  after_filter_set (with_calls [call_alice; call_bob]) FILTER_PAYLOAD "bye".

(** The state the display loop is in when it reaches a filter type: the
    call with a verdict of pass, nothing evaluated yet. *)
Definition at_loop (call : sip_call_t) : check_state :=
  {| st_call := call_set_filtered FILTERED_PASS call; st_evals := [] |}.

(** [call_alice] as the FROM filter [alice] left it: a cached pass. *)
Definition call_alice_pass : sip_call_t :=
  call_set_filtered FILTERED_PASS call_alice.

(** *** Packets for the registry *)
Import Methods Storage.

Definition invite_of (cid : string) : sip_msg_t :=
  mk_msg (sip_method_id SIP_METHOD_INVITE) cid "alice@example.org"
    "carol@example.org" "INVITE sip:carol@example.org SIP/2.0".

Definition options_of (cid : string) : sip_msg_t :=
  mk_msg (sip_method_id SIP_METHOD_OPTIONS) cid "alice@example.org"
    "carol@example.org" "OPTIONS sip:carol@example.org SIP/2.0".

Definition response_of (code : Z) (cid text : string) : sip_msg_t :=
  mk_msg code cid "alice@example.org" "carol@example.org" text.

(** An INVITE of Call-ID [cid] that carries [X-Call-ID: x]. *)
Definition invite_linked (cid x : string) : sip_msg_t :=
  {| reqresp := sip_method_id SIP_METHOD_INVITE; cseq := 1;
     sip_from := "alice@example.org"; sip_to := "carol@example.org";
     to_tag := false; msg_callid := cid; msg_xcallid := x;
     payload := "INVITE sip:carol@example.org SIP/2.0";
     src := "10.0.0.1:5060"; dst := "10.0.0.2:5060" |}.

Definition capture_of (n : N) (rot : bool) : SStorageCaptureOpts :=
  {| limit := n; rotate := rot; rtp := false; outfile := None |}.

Definition match_of (only_invite : bool) : SStorageMatchOpts :=
  {| invite := only_invite; complete := false; mexpr := None;
     minvert := false; micase := false; mregex := None |}.

(** The empty registry [sip_init] makes for a limit and a rotation flag
    (with no match expression the initialisation cannot fail). *)
Definition registry (n : N) (rot only_invite : bool) : sip_call_list :=
  default no_calls
    (sip_init (capture_of n rot) (match_of only_invite)
       {| sort_by := SIP_ATTR_CALLID; sort_asc := true |}).



(** *** Patterns for the validator

    The start-line, the Content-Length header and the header terminator,
    read off the payload text. *)
Import Validate.

Definition crlf : string := String "013" (String "010" EmptyString).

(** The text after the first occurrence of [pat]. *)
Fixpoint after (pat s : string) : option string :=
  if String.prefix pat s
  then Some (String.substring (String.length pat)
                              (String.length s - String.length pat) s)
  else match s with
       | EmptyString => None
       | String _ rest => after pat rest
       end.

(** The text before the first occurrence of [pat], all of it when there is
    none. *)
Fixpoint before (pat s : string) : string :=
  if String.prefix pat s then EmptyString
  else match s with
       | EmptyString => EmptyString
       | String c rest => String c (before pat rest)
       end.

Definition start_line_matches (payload : string) : bool :=
  let line := before crlf payload in
  String.prefix "SIP/2.0 " line
  || (existsb (fun c => String.prefix (text c ++ " ") line) sip_codes
      && contains " SIP/2.0" line).

Definition content_length (payload : string) : option nat :=
  (fun rest => Z.to_nat (leading_number 0 rest))
    <$> after (crlf ++ "Content-Length: ") payload.

Definition body_after_headers (payload : string) : option string :=
  after (crlf ++ crlf) payload.

Definition sip_validate_packet :=
  Validate.sip_validate_packet start_line_matches content_length
    body_after_headers.

(** A request with a declared body of four bytes, followed by [body]. *)
Definition stream_packet (body : string) : packet_t :=
  {| pkt_src := "10.0.0.1:5060"; pkt_dst := "10.0.0.2:5060";
     pkt_transport := Stream; pkt_ts := 0;
     pkt_payload :=
       "INVITE sip:carol@example.org SIP/2.0" ++ crlf ++
       "Call-ID: a1" ++ crlf ++
       "Content-Length: 4" ++ crlf ++ crlf ++ body |}.

End Literal.

(** ** The evaluations of filter_check_call, filter by filter

    The record of [filter_check_expr] calls that [filter_check_call] is to
    leave, said without the loop: which filters are tried, in which order,
    and on which texts. *)
Module FilterTrace.
Import Filter.

Section WithEngine.
Context `{engine : GRegexEngine}.
Variable call_get_attribute : sip_call_t -> sip_attr_id -> string.
Variable call_list_line_text : sip_call_t -> string.

(** The messages the PAYLOAD pattern is tried on: the messages of the call
    in their order, up to and including the first whose payload matches. *)
Fixpoint through_first_match (filter : filter_t) (ms : list sip_msg_t)
  : list sip_msg_t :=
  match ms with
  | [] => []
  | msg :: rest =>
      msg :: if filter_matches filter (msg_get_payload msg) then []
             else through_first_match filter rest
  end.

(** The evaluations the filter of type [i] takes: none when it is off, one
    on the extracted field for a type other than PAYLOAD, one per message
    tried for PAYLOAD. *)
Definition filter_evals (g : globals) (i : Z) (call : sip_call_t)
  : list (Z * string) :=
  if filter_enabled g i then
    if i =? FILTER_PAYLOAD then
      map (fun msg => (i, msg_get_payload msg))
          (through_first_match (filters_at g i) (msgs call))
    else
      [(i, default ""%string
             (filter_field call_get_attribute call_list_line_text i call))]
  else [].

(** The filter types that are looked at: those of [todo] in their order, up
    to and including the first the call does not get past. *)
Fixpoint visited (g : globals) (call : sip_call_t) (todo : list Z) : list Z :=
  match todo with
  | [] => []
  | i :: rest =>
      i :: if call_passes call_get_attribute call_list_line_text g i call
           then visited g call rest else []
  end.

(** All the evaluations, for the filter types [todo]. *)
Definition evals_over (g : globals) (call : sip_call_t) (todo : list Z)
  : list (Z * string) :=
  concat (map (fun i => filter_evals g i call) (visited g call todo)).

(** The number of enabled filters among the types [todo]. *)
Definition enabled_count (g : globals) (todo : list Z) : nat :=
  length (List.filter (filter_enabled g) todo).

End WithEngine.
End FilterTrace.

(** ** The panel pool ([ui_manager.c])

    [ui_manager.c] keeps one [ui_t] per kind of panel in the static array
    [panel_pool] and hands out pointers into it.  A pointer to a [ui_t] is
    the index of the entry here and [NULL] is [None]; so is a [PANEL *],
    with the panels numbered.  The functions a [ui_t] points to are the
    panels' own, outside this file: an entry records which of them are set,
    and the two calls that [ui_create] and [ui_destroy] make are recorded
    as events.  They are taken to work on the panel they make or get and
    not to reach back into the pool. *)
Module UiManager.

Definition PANEL : Type := nat.

(** [ui_t] (the missing [ui_manager.h]), with the fields that the
    initialisers of [panel_pool] name. *)
Record ui_t := {
  type : Z;
  panel : option PANEL;
  create : bool;
  draw : bool;
  handle_key : bool;
  help : bool;
  destroy : bool
}.

(** The calls out of the pool: [ui->create()] with the pointer it returned,
    and [ui->destroy(panel)]. *)
Inductive ui_event :=
  | Created (t : Z) (result : option PANEL)
  | Destroyed (t : Z) (p : PANEL).

(** The state of the file: the pool and the calls made so far. *)
Record ui_manager := {
  pool : list ui_t;
  events : list ui_event
}.

Section PanelTypes.
(** The panel type ids of the missing [ui_manager.h]. *)
Variables MAIN_PANEL DETAILS_PANEL DETAILS_PANEL_EX RAW_PANEL : Z.

(** [static ui_t panel_pool[]] as initialised: no panel yet; the extended
    call flow has no [handle_key] and no [destroy], the raw panel has no
    [destroy]. *)
Definition panel_pool : list ui_t :=
  [ {| type := MAIN_PANEL; panel := None; create := true; draw := true;
       handle_key := true; help := true; destroy := true |};
    {| type := DETAILS_PANEL; panel := None; create := true; draw := true;
       handle_key := true; help := true; destroy := true |};
    {| type := DETAILS_PANEL_EX; panel := None; create := true; draw := true;
       handle_key := false; help := true; destroy := false |};
    {| type := RAW_PANEL; panel := None; create := true; draw := true;
       handle_key := true; help := true; destroy := false |} ].

End PanelTypes.

Definition ui_set_panel (p : option PANEL) (ui : ui_t) : ui_t :=
  {| type := type ui; panel := p; create := create ui; draw := draw ui;
     handle_key := handle_key ui; help := help ui; destroy := destroy ui |}.

(** [for (i = 0; i < panelcnt; i++) if (test(panel_pool[i])) return
    &panel_pool[i]; return NULL], from the index [i] on. *)
Fixpoint find_from (test : ui_t -> bool) (i : nat) (l : list ui_t)
  : option nat :=
  match l with
  | [] => None
  | ui :: rest => if test ui then Some i else find_from test (S i) rest
  end.

(** [ui_find_by_panel]. *)
Definition ui_find_by_panel (m : ui_manager) (p : option PANEL) : option nat :=
  find_from (fun ui => bool_decide (panel ui = p)) 0 (pool m).

(** [ui_find_by_type]. *)
Definition ui_find_by_type (m : ui_manager) (t : Z) : option nat :=
  find_from (fun ui => type ui =? t) 0 (pool m).

(** [ui_get_panel]: [(ui) ? ui->panel : NULL]. *)
Definition ui_get_panel (m : ui_manager) (ui : option nat) : option PANEL :=
  i ← ui; entry ← pool m !! i; panel entry.

Section Creators.
(** What the creator of a panel type returns when it is called after the
    calls made so far: any pointer, or [NULL]. *)
Variable created : list ui_event -> Z -> option PANEL.

(** [ui_create]. *)
Definition ui_create (m : ui_manager) (t : Z) : option nat * ui_manager :=
  match ui_find_by_type m t with
  | None => (None, m)
  | Some i =>
      match ui_get_panel m (Some i) with
      | Some _ => (Some i, m)
      | None =>
          match pool m !! i with
          | Some ui =>
              if create ui then
                let p := created (events m) (type ui) in
                (Some i,
                 {| pool := <[i := ui_set_panel p ui]> (pool m);
                    events := events m ++ [Created (type ui) p] |})
              else (Some i, m)
          | None => (Some i, m)
          end
      end
  end.

End Creators.

(** [ui_destroy]. *)
Definition ui_destroy (m : ui_manager) (ui : option nat) : ui_manager :=
  match ui_get_panel m ui with
  | None => m
  | Some p =>
      match ui with
      | None => m
      | Some i =>
          match pool m !! i with
          | None => m
          | Some entry =>
              {| pool := <[i := ui_set_panel None entry]> (pool m);
                 events := if destroy entry
                           then events m ++ [Destroyed (type entry) p]
                           else events m |}
          end
      end
  end.

(** The part of an entry that the initialiser of [panel_pool] fixes: its
    type and which functions it has. *)
Definition ui_declared (ui : ui_t) : Z * (bool * bool * bool * bool * bool) :=
  (type ui, (create ui, draw ui, handle_key ui, help ui, destroy ui)).

End UiManager.

(** ** A concrete pool

    The pool of [ui_manager.c] with the type ids 0 to 3, and creators that
    return the panel pointer [10 * n + t] at their [n]-th call. *)
Module UiSample.
Import UiManager.

Definition sample_pool : list ui_t := panel_pool 0 1 2 3.

Definition created (past : list ui_event) (t : Z) : option PANEL :=
  Some (10 * length past + Z.to_nat t)%nat.

Definition ui_start : ui_manager := {| pool := sample_pool; events := [] |}.

(** The state after the raw panel was created. *)
Definition ui_raw : ui_manager := (ui_create created ui_start 3).2.

End UiSample.

(** ** More filter states *)
Module LiteralStates.
Import Filter Literal.

(** The state after [filter_set(type, NULL)]. *)
Definition after_filter_clear (g : globals) (type : Z) : globals :=
  match filter_set g type None with
  | Some (_, g') => g'
  | None => g
  end.

(** FROM filter [bob] and PAYLOAD filter [bye]. *)
Definition g_bob_bye : globals := after_filter_set g_bob FILTER_PAYLOAD "bye".

(** FROM filter [alice] and PAYLOAD filter [bye], over calls not yet
    displayed. *)
Definition g_alice_bye : globals :=
  after_filter_set
    (after_filter_set (with_calls [call_alice; call_bob]) FILTER_SIPFROM "alice")
    FILTER_PAYLOAD "bye".

End LiteralStates.

(* ================================================================== *)
(** * Properties *)
(* ================================================================== *)

Import Filter.

(** ** The filter engine ([filter.c]) *)
Section FilterProperties.
Context `{engine : GRegexEngine}.
Variable call_get_attribute : sip_call_t -> sip_attr_id -> string.
Variable call_list_line_text : sip_call_t -> string.

(** The accessors render a call from its messages and endpoints; none of
    the attribute ids is the cached verdict. *)
Hypothesis call_get_attribute_filtered : forall v call id,
  call_get_attribute (call_set_filtered v call) id = call_get_attribute call id.
Hypothesis call_list_line_text_filtered : forall v call,
  call_list_line_text (call_set_filtered v call) = call_list_line_text call.

Local Abbreviation filter_field := (filter_field call_get_attribute call_list_line_text).
Local Abbreviation filter_step := (filter_step call_get_attribute call_list_line_text).
Local Abbreviation filter_loop := (filter_loop call_get_attribute call_list_line_text).
Local Abbreviation filter_check_call :=
  (filter_check_call call_get_attribute call_list_line_text).
Local Abbreviation call_matches :=
  (call_matches call_get_attribute call_list_line_text).
Local Abbreviation call_passes :=
  (call_passes call_get_attribute call_list_line_text).

Lemma call_set_filtered_twice v w call :
  call_set_filtered v (call_set_filtered w call) = call_set_filtered v call.
Proof. reflexivity. Qed.

Lemma call_set_filtered_same call :
  call_set_filtered (filtered call) call = call.
Proof. by destruct call. Qed.

Lemma filter_check_expr_matches filter data :
  (filter_check_expr filter data =? 0) = filter_matches filter data.
Proof.
  unfold filter_check_expr, filter_matches.
  destruct (regex filter) as [re|]; [|done].
  by destruct (g_regex_match re data).
Qed.

Lemma filter_field_filtered v i call :
  filter_field i (call_set_filtered v call) = filter_field i call.
Proof.
  unfold Filter.filter_field.
  by rewrite !call_get_attribute_filtered, call_list_line_text_filtered.
Qed.

Lemma call_passes_filtered g v i call :
  call_passes g i (call_set_filtered v call) = call_passes g i call.
Proof.
  unfold call_passes, call_matches.
  by rewrite filter_field_filtered.
Qed.

Lemma forallb_call_passes_filtered g v call todo :
  forallb (fun i => call_passes g i (call_set_filtered v call)) todo =
  forallb (fun i => call_passes g i call) todo.
Proof.
  induction todo as [|i rest IH]; [done|].
  cbn. by rewrite call_passes_filtered, IH.
Qed.

Lemma filter_field_in_range i call :
  0 <= i < FILTER_COUNT -> is_Some (filter_field i call).
Proof.
  unfold FILTER_COUNT. intros Hi.
  assert (i = 0 \/ i = 1 \/ i = 2 \/ i = 3 \/ i = 4 \/ i = 5 \/ i = 6)
    as Hcases by lia.
  destruct Hcases as [->|[->|[->|[->|[->|[->| ->]]]]]]; cbn; eauto.
Qed.

(** The inner loop clears the verdict exactly when a payload matches. *)
Lemma payload_loop_call i filter ms s :
  st_call (payload_loop i filter ms s).2 =
    if existsb (fun msg => filter_matches filter (msg_get_payload msg)) ms
    then call_set_filtered 0 (st_call s) else st_call s.
Proof.
  revert s. induction ms as [|msg rest IH]; intros s; [done|].
  cbn [payload_loop existsb]. unfold bind, check_expr.
  rewrite filter_check_expr_matches.
  destruct (filter_matches filter (msg_get_payload msg)); cbn; [done|].
  by rewrite IH.
Qed.

(** One turn of the loop, from a verdict of pass: the turn goes on with the
    call untouched when the call gets past the filter, and breaks with a
    verdict of reject when it does not. *)
Lemma filter_step_spec g i s c s' :
  0 <= i < FILTER_COUNT ->
  filtered (st_call s) = 0 ->
  filter_step g i s = (c, s') ->
  if call_passes g i (st_call s)
  then c = Continue /\ st_call s' = st_call s
  else c = Break /\ st_call s' = call_set_filtered 1 (st_call s).
Proof.
  intros Hi Hpass. unfold call_passes, filter_enabled, Filter.filter_step.
  destruct (expr (filters_at g i)) as [e|] eqn:He.
  2: { rewrite bool_decide_eq_false_2 by (by intros [? ?]).
       cbn. by intros [= <- <-]. }
  rewrite bool_decide_eq_true_2 by eauto. cbn [negb orb].
  unfold bind at 1. cbn [get_call].
  destruct (filter_field_in_range i (st_call s) Hi) as [data Hdata].
  unfold call_matches. rewrite Hdata. cbn [from_option id].
  destruct (i =? FILTER_PAYLOAD) eqn:Hp.
  - unfold bind, set_filtered, get_call. cbn [st_call st_evals].
    pose proof (payload_loop_call i (filters_at g i) (msgs (st_call s))
      {| st_call := call_set_filtered 1 (st_call s); st_evals := st_evals s |})
      as Hcall.
    destruct (payload_loop i (filters_at g i) (msgs (st_call s)) _)
      as [[] s1]. cbn [snd st_call] in Hcall.
    destruct (existsb _ (msgs (st_call s))); rewrite Hcall; cbn;
      intros [= <- <-]; rewrite Hcall; [|done].
    split; [done|]. rewrite call_set_filtered_twice, <- Hpass.
    apply call_set_filtered_same.
  - unfold bind, check_expr.
    rewrite filter_check_expr_matches.
    destruct (filter_matches (filters_at g i) data); cbn; by intros [= <- <-].
Qed.

(** The whole loop, from a verdict of pass: it is never left by [return],
    and the verdict it leaves is the conjunction over the visited types. *)
Lemma filter_loop_spec g todo s r s' :
  Forall (fun i => 0 <= i < FILTER_COUNT) todo ->
  filtered (st_call s) = 0 ->
  filter_loop g todo s = (r, s') ->
  r = None /\
  st_call s' =
    call_set_filtered
      (if forallb (fun i => call_passes g i (st_call s)) todo then 0 else 1)
      (st_call s).
Proof.
  intros Hrange. revert s.
  induction Hrange as [|i rest Hi Hrest IH]; intros s Hpass.
  - cbn. intros [= <- <-]. split; [done|].
    rewrite <- Hpass. by rewrite call_set_filtered_same.
  - cbn [Filter.filter_loop forallb]. unfold bind.
    destruct (filter_step g i s) as [c s1] eqn:Hstep.
    apply filter_step_spec in Hstep; [|done..].
    destruct (call_passes g i (st_call s)); cbn [andb];
      destruct Hstep as [-> Hs1].
    + intros Hrest'. apply IH in Hrest'; [|by rewrite Hs1].
      by rewrite Hs1 in Hrest'.
    + by intros [= <- <-].
Qed.

Lemma seqZ_filter_types :
  Forall (fun i => 0 <= i < FILTER_COUNT) (seqZ 0 FILTER_COUNT).
Proof. apply Forall_forall. intros i Hi%elem_of_seqZ. lia. Qed.

(** What [filter_check_call] does on a call that has messages and whose
    verdict is unknown. *)
Lemma filter_check_call_unknown g call :
  call_msg_count call <> 0 ->
  filtered call = -1 ->
  let pass := forallb (fun i => call_passes g i call) (seqZ 0 FILTER_COUNT) in
  (filter_check_call g call).1 = pass /\
  st_call (filter_check_call g call).2 =
    call_set_filtered (if pass then 0 else 1) call.
Proof.
  intros Hcount Hunknown. cbn zeta.
  destruct (filter_check_call g call) as [b s'] eqn:Hrun. cbn [fst snd].
  revert Hrun.
  unfold Filter.filter_check_call, filter_check_call_body.
  unfold bind at 1. cbn [get_call st_call].
  destruct (Z.eqb_spec (call_msg_count call) 0) as [|_]; [done|].
  rewrite Hunknown. change (negb (-1 =? -1)) with false. cbv iota.
  unfold bind, set_filtered. cbn [st_call st_evals].
  destruct (filter_loop g (seqZ 0 FILTER_COUNT) _) as [r s1] eqn:Hloop.
  apply filter_loop_spec in Hloop; [|apply seqZ_filter_types|done].
  cbn [st_call] in Hloop. destruct Hloop as [-> Hcall].
  unfold get_call, ret. intros [= <- <-].
  rewrite Hcall.
  rewrite forallb_call_passes_filtered.
  generalize (forallb (fun i => call_passes g i call) (seqZ 0 FILTER_COUNT)).
  by intros [|].
Qed.

Lemma forallb_filter_types (P : Z -> bool) :
  forallb P (seqZ 0 FILTER_COUNT) = true <->
  forall i, 0 <= i < FILTER_COUNT -> P i = true.
Proof.
  rewrite forallb_forall. split.
  - intros H i Hi. apply H, list_elem_of_In, elem_of_seqZ. lia.
  - intros H i Hi%list_elem_of_In%elem_of_seqZ. apply H. lia.
Qed.

Lemma call_passes_true g i call :
  call_passes g i call = true <->
  (filter_enabled g i = true -> call_matches g i call = true).
Proof.
  unfold call_passes. destruct (filter_enabled g i); cbn; naive_solver.
Qed.

(** C1.  For a call with at least one message and an unknown cached
    verdict, [filter_check_call] returns true exactly when the call matches
    every enabled filter; when some enabled filter does not match, it
    returns false and the call's verdict becomes reject. *)
Theorem filter_check_call_all_enabled g call :
  call_msg_count call <> 0 ->
  filtered call = FILTERED_UNKNOWN ->
  ((filter_check_call g call).1 = true <->
   forall i, 0 <= i < FILTER_COUNT ->
             filter_enabled g i = true -> call_matches g i call = true)
  /\
  ((exists i, 0 <= i < FILTER_COUNT /\ filter_enabled g i = true /\
              call_matches g i call = false) ->
   (filter_check_call g call).1 = false /\
   filtered (st_call (filter_check_call g call).2) = FILTERED_REJECT).
Proof.
  intros Hcount Hunknown.
  destruct (filter_check_call_unknown g call Hcount Hunknown) as [Hret Hcall].
  rewrite Hret, Hcall. split.
  - rewrite forallb_filter_types.
    split; intros H i Hi; specialize (H i Hi); by apply call_passes_true.
  - intros (i & Hi & Hon & Hno).
    destruct (forallb _ _) eqn:Hall; [|done].
    rewrite forallb_filter_types in Hall. specialize (Hall i Hi).
    apply call_passes_true in Hall; [congruence|done].
Qed.

(** C2.  An expression that does not compile makes [filter_set] return the
    failure code 1, whatever the type, and the stored state (every
    expression and compiled pattern, and the calls) is the one before. *)
Theorem filter_set_invalid_pattern g type s :
  g_regex_new s true = None ->
  filter_set g type (Some s) = Some (1, g).
Proof. intros Hbad. unfold filter_set. by rewrite Hbad. Qed.

(** X1.  [filter_set] on a full table: the entry of the type holds the new
    expression, the other entries are the ones before, and the table keeps
    its size. *)
Lemma filter_set_get g type e g' :
  length (filters g) = Z.to_nat FILTER_COUNT ->
  filter_set g type e = Some (0, g') ->
  filter_get g' type = e /\
  (forall other, 0 <= other -> other <> type ->
                 filter_get g' other = filter_get g other) /\
  length (filters g') = Z.to_nat FILTER_COUNT.
Proof.
  intros Hlen Hset. unfold filter_set in Hset.
  assert (0 <= type < FILTER_COUNT /\
          exists re, filters g' =
            <[Z.to_nat type := {| expr := e; regex := re |}]> (filters g))
    as (Hrange & re & Hfilters).
  { destruct e as [s|]; [destruct (g_regex_new s true)|];
      try case_bool_decide; simplify_eq; eauto. }
  unfold filter_get, filters_at. rewrite Hfilters. split; [|split].
  - rewrite list_lookup_insert_eq; [done|]. rewrite Hlen. lia.
  - intros other Hother Hne. rewrite list_lookup_insert_ne; [done|]. lia.
  - by rewrite length_insert.
Qed.

Lemma filters_init_length : length filters_init = Z.to_nat FILTER_COUNT.
Proof. reflexivity. Qed.

(** C3, as the code has it.  A successful [filter_set] writes the filter
    table only: the call list, and with it every cached verdict, is the one
    before.  The verdicts are reset by [filter_reset_calls], which sets the
    verdict of every call to unknown and leaves the filter table alone. *)
Theorem filter_set_keeps_verdicts g type e g' :
  filter_set g type e = Some (0, g') ->
  calls g' = calls g /\
  filters (filter_reset_calls g') = filters g' /\
  Forall (fun call => filtered call = FILTERED_UNKNOWN)
         (sip_calls_iterator (calls (filter_reset_calls g'))).
Proof.
  intros Hset. split; [|split].
  - unfold filter_set in Hset.
    destruct e as [s|]; [destruct (g_regex_new s true)|];
      try case_bool_decide; by simplify_eq.
  - done.
  - cbn. apply Forall_forall. intros call Hin.
    apply list_elem_of_fmap in Hin as (call0 & -> & _). done.
Qed.

Lemma call_passes_payload g call :
  filter_enabled g FILTER_PAYLOAD = true ->
  call_passes g FILTER_PAYLOAD call = true <-> some_payload_matches g call.
Proof.
  intros Hon. unfold call_passes, call_matches, some_payload_matches.
  rewrite Hon. cbn [negb orb]. change (FILTER_PAYLOAD =? FILTER_PAYLOAD) with true.
  cbv iota. rewrite existsb_exists.
  split; intros (msg & Hin & Hm); exists msg; split; try done;
    by apply list_elem_of_In.
Qed.

(** C4.  With the PAYLOAD filter enabled, for a call that has messages:
    the turn of the loop for PAYLOAD lets the call through exactly when the
    payload of at least one message matches the pattern; when no payload
    matches, the call is rejected; when every other filter lets the call
    through, the call is displayed exactly when some payload matches. *)
Theorem filter_payload_some_message g call :
  filter_enabled g FILTER_PAYLOAD = true ->
  call_msg_count call <> 0 ->
  filtered call = FILTERED_UNKNOWN ->
  (forall s, st_call s = call_set_filtered FILTERED_PASS call ->
     ((filter_step g FILTER_PAYLOAD s).1 = Continue <->
      some_payload_matches g call)) /\
  (~ some_payload_matches g call ->
     (filter_check_call g call).1 = false /\
     filtered (st_call (filter_check_call g call).2) = FILTERED_REJECT) /\
  ((forall i, 0 <= i < FILTER_COUNT -> i <> FILTER_PAYLOAD ->
              call_passes g i call = true) ->
     ((filter_check_call g call).1 = true <-> some_payload_matches g call)).
Proof.
  intros Hon Hcount Hunknown.
  pose proof (call_passes_payload g call Hon) as Hpayload.
  destruct (filter_check_call_unknown g call Hcount Hunknown) as [Hret Hcall].
  split; [|split].
  - intros s Hs.
    destruct (filter_step g FILTER_PAYLOAD s) as [c s'] eqn:Hstep.
    apply filter_step_spec in Hstep; [|done|by rewrite Hs].
    rewrite Hs, call_passes_filtered in Hstep. cbn [fst].
    destruct (call_passes g FILTER_PAYLOAD call);
      destruct Hstep as [-> _]; [tauto|].
    split; [done|]. intros Hsome. by apply Hpayload in Hsome.
  - intros Hnone. rewrite Hret, Hcall.
    destruct (forallb _ _) eqn:Hall; [|done].
    rewrite forallb_filter_types in Hall.
    destruct Hnone. apply Hpayload, Hall. done.
  - intros Hothers. rewrite Hret, forallb_filter_types, <- Hpayload.
    split; [intros H; by apply H|].
    intros H5 i Hi. destruct (decide (i = FILTER_PAYLOAD)) as [->|Hne]; auto.
Qed.

(** C5, as the code has it.  For a call that has messages: when the cached
    verdict is not unknown, [filter_check_call] returns it (true exactly for
    pass), the call is left as it is and no filter is evaluated; when the
    verdict is unknown, the evaluation leaves it pass or reject and returns
    true exactly for pass. *)
Theorem filter_check_call_cached g call :
  call_msg_count call <> 0 ->
  (filtered call <> FILTERED_UNKNOWN ->
   filter_check_call g call =
     (filtered call =? FILTERED_PASS, {| st_call := call; st_evals := [] |}))
  /\
  (filtered call = FILTERED_UNKNOWN ->
   (filtered (st_call (filter_check_call g call).2) = FILTERED_PASS \/
    filtered (st_call (filter_check_call g call).2) = FILTERED_REJECT) /\
   (filter_check_call g call).1 =
     (filtered (st_call (filter_check_call g call).2) =? FILTERED_PASS)).
Proof.
  intros Hcount. split.
  - intros Hknown.
    unfold Filter.filter_check_call, filter_check_call_body, bind.
    cbn [get_call st_call].
    destruct (Z.eqb_spec (call_msg_count call) 0) as [|_]; [done|].
    destruct (Z.eqb_spec (filtered call) (-1)) as [|_]; done.
  - intros Hunknown.
    destruct (filter_check_call_unknown g call Hcount Hunknown) as [-> ->].
    generalize (forallb (fun i => call_passes g i call) (seqZ 0 FILTER_COUNT)).
    intros [|]; cbn; auto.
Qed.

(** C10.  A call without messages is not displayed: [filter_check_call]
    returns false, whatever filters are set, without evaluating any and
    without touching the call's cached verdict. *)
Theorem filter_check_call_no_messages g call :
  call_msg_count call = 0 ->
  filter_check_call g call = (false, {| st_call := call; st_evals := [] |}).
Proof.
  intros Hcount.
  unfold Filter.filter_check_call, filter_check_call_body, bind.
  cbn [get_call st_call]. by rewrite Hcount.
Qed.

End FilterProperties.



(** ** The SIP methods *)
Section MethodProperties.
Import Methods.

(** C6.  For every method [m] of the enumeration REGISTER = 1, ..., UPDATE,
    [sip_method_from_str] maps the method string to the value of [m], and
    [sip_method_str] maps that value back to the method string. *)
Theorem sip_method_str_from_str (m : sip_methods) :
  sip_method_from_str (sip_method_text m) = sip_method_id m /\
  sip_method_str (sip_method_from_str (sip_method_text m)) =
    Some (sip_method_text m).
Proof. by destruct m. Qed.

(** The values of the enumeration are 1 to 14, in the order of [sip.h]. *)
Lemma sip_method_id_range (m : sip_methods) : 1 <= sip_method_id m <= 14.
Proof. destruct m; cbn; lia. Qed.

Lemma sip_methods_all_ids :
  map sip_method_id sip_methods_all = seqZ 1 14.
Proof. reflexivity. Qed.

(** A text that is no method is read as a response code. *)
Example sip_method_from_str_response :
  sip_method_from_str "200 OK" = 200 /\ sip_method_str 200 = None.
Proof. by vm_compute. Qed.

End MethodProperties.

(** ** The payload validator *)
Section ValidateProperties.
Import Validate.
Variable start_line_matches : string -> bool.
Variable content_length : string -> option nat.
Variable body_after_headers : string -> option string.

Local Abbreviation sip_validate_packet :=
  (sip_validate_packet start_line_matches content_length body_after_headers).

Lemma declared_body_iff (cl : option nat) (bd : option string) n body
    (P : nat -> string -> Prop) :
  cl = Some n -> bd = Some body ->
  (exists n0 body0, cl = Some n0 /\ bd = Some body0 /\ P n0 body0) <-> P n body.
Proof.
  intros -> ->. split; [|by eauto].
  by intros (n0 & body0 & [= <-] & [= <-] & HP).
Qed.

(** C7.  For a packet of a stream transport: a payload whose first line is
    no SIP start-line is NOT_SIP (-1); otherwise the payload is COMPLETE (1)
    exactly when it has a [Content-Length: N] header and exactly [N] bytes
    follow the header terminator, MULTIPLE (2) exactly when more than [N]
    bytes follow it, and PARTIAL (0) in every other case. *)
Theorem sip_validate_packet_stream (packet : packet_t) :
  pkt_transport packet = Stream ->
  (start_line_matches (pkt_payload packet) = false ->
     sip_validate_packet packet = -1) /\
  (start_line_matches (pkt_payload packet) = true ->
     (sip_validate_packet packet = 1 <->
        exists n body,
          content_length (pkt_payload packet) = Some n /\
          body_after_headers (pkt_payload packet) = Some body /\
          String.length body = n) /\
     (sip_validate_packet packet = 2 <->
        exists n body,
          content_length (pkt_payload packet) = Some n /\
          body_after_headers (pkt_payload packet) = Some body /\
          (n < String.length body)%nat) /\
     (sip_validate_packet packet = 0 <->
        ~ exists n body,
          content_length (pkt_payload packet) = Some n /\
          body_after_headers (pkt_payload packet) = Some body /\
          (n <= String.length body)%nat)).
Proof.
  intros Hstream. unfold Validate.sip_validate_packet.
  rewrite Hstream. split; [by intros ->|].
  intros ->. cbn [negb].
  destruct (content_length (pkt_payload packet)) as [n|];
    [destruct (body_after_headers (pkt_payload packet)) as [body|]|].
  - rewrite !(declared_body_iff _ _ n body) by done.
    unfold VALIDATE_PARTIAL_SIP, VALIDATE_MULTIPLE_SIP, VALIDATE_COMPLETE_SIP.
    destruct (Nat.ltb_spec (String.length body) n);
      [|destruct (Nat.ltb_spec n (String.length body))];
      repeat split; intros; (done || lia).
  - assert (forall P : nat -> string -> Prop,
              ~ exists n0 body, Some n = Some n0 /\ None = Some body /\ P n0 body)
      as Hnone by (by intros P (? & ? & _ & ? & _)).
    unfold VALIDATE_PARTIAL_SIP.
    repeat split; try done; intros H; by destruct (Hnone _ H).
  - assert (forall P : nat -> string -> Prop,
              ~ exists n0 body, None = Some n0 /\
                  body_after_headers (pkt_payload packet) = Some body /\ P n0 body)
      as Hnone by (by intros P (? & ? & ? & _)).
    unfold VALIDATE_PARTIAL_SIP.
    repeat split; try done; intros H; by destruct (Hnone _ H).
Qed.

(** A datagram whose first line is a start-line is complete as it is. *)
Lemma sip_validate_packet_datagram (packet : packet_t) :
  pkt_transport packet = Datagram ->
  sip_validate_packet packet =
    if start_line_matches (pkt_payload packet) then VALIDATE_COMPLETE_SIP
    else VALIDATE_NOT_SIP.
Proof.
  intros Hd. unfold Validate.sip_validate_packet. rewrite Hd.
  by destruct (start_line_matches _).
Qed.

End ValidateProperties.

(** ** The call registry *)
Section StorageProperties.
Import Methods Storage.
Context `{engine : GRegexEngine}.

Lemma take_oldest_unlocked_Some l victim rest :
  take_oldest_unlocked l = Some (victim, rest) ->
  exists older newer,
    l = older ++ victim :: newer /\ rest = older ++ newer /\
    Forall (fun call => locked call = true) older /\ locked victim = false.
Proof.
  revert rest. induction l as [|call l IH]; intros rest; [done|].
  cbn. destruct (locked call) eqn:Hlocked.
  - destruct (take_oldest_unlocked l) as [[v rest']|]; [|done].
    intros [= -> <-].
    destruct (IH rest' eq_refl) as (older & newer & -> & -> & Hold & Hv).
    exists (call :: older), newer. by repeat split; [constructor|].
  - intros [= <- <-]. exists [], l. by repeat split.
Qed.

Lemma take_oldest_unlocked_None l :
  take_oldest_unlocked l = None ->
  Forall (fun call => locked call = true) l.
Proof.
  induction l as [|call l IH]; [by constructor|].
  cbn. destruct (locked call) eqn:Hlocked; [|done].
  destruct (take_oldest_unlocked l) as [[v rest']|]; [done|].
  intros _. constructor; auto.
Qed.


Lemma add_message_to_index k msg l :
  map index (add_message_to k msg l) = map index l.
Proof.
  induction l as [|call l IH]; [done|].
  cbn. destruct (index call =? k); cbn; by rewrite ?IH.
Qed.

(** A message added to a listed call changes the list. *)
Lemma add_message_to_changes k msg l call :
  List.find (fun c => index c =? k) l = Some call ->
  add_message_to k msg l <> l.
Proof.
  induction l as [|c l IH]; [done|].
  cbn. destruct (index c =? k).
  - intros _ [= Heq]. apply (f_equal msgs) in Heq. cbn in Heq.
    apply (f_equal length) in Heq. rewrite length_app in Heq. cbn in Heq. lia.
  - intros Hfind [= Heq]. by apply IH.
Qed.

Lemma unlink_xcall_index k call : index (unlink_xcall k call) = index call.
Proof. unfold unlink_xcall. by case_bool_decide. Qed.


Lemma resolve_xcall_index cid k call :
  index (resolve_xcall cid k call) = index call.
Proof. unfold resolve_xcall. by destruct (_ && _). Qed.


Lemma indexes_below_last_alt calls :
  indexes_below_last calls <->
  Forall (fun k => k < last_index calls) (map index (calls_list calls)).
Proof. unfold indexes_below_last. by rewrite Forall_fmap. Qed.

(** What a rotation does: nothing when every call is locked; otherwise the
    oldest call that is not locked leaves the list. *)
Lemma sip_calls_rotate_spec calls :
  (sip_calls_rotate calls = calls /\
   Forall (fun call => locked call = true) (calls_list calls))
  \/
  (exists older victim newer,
     calls_list calls = older ++ victim :: newer /\
     Forall (fun call => locked call = true) older /\
     locked victim = false /\
     calls_list (sip_calls_rotate calls) =
       map (unlink_xcall (index victim)) (older ++ newer) /\
     changed (sip_calls_rotate calls) = true).
Proof.
  unfold sip_calls_rotate.
  destruct (take_oldest_unlocked (calls_list calls)) as [[victim rest]|] eqn:Ht.
  - right. apply take_oldest_unlocked_Some in Ht
      as (older & newer & Hl & -> & Hold & Hv).
    by exists older, victim, newer.
  - left. split; [done|]. by apply take_oldest_unlocked_None.
Qed.

Lemma sip_calls_rotate_keeps calls :
  capture (sip_calls_rotate calls) = capture calls /\
  last_index (sip_calls_rotate calls) = last_index calls /\
  match_opts (sip_calls_rotate calls) = match_opts calls.
Proof.
  unfold sip_calls_rotate.
  by destruct (take_oldest_unlocked (calls_list calls)) as [[victim rest]|].
Qed.

Lemma sip_calls_rotate_indexes calls :
  indexes_below_last calls -> indexes_below_last (sip_calls_rotate calls).
Proof.
  intros Hwf.
  destruct (sip_calls_rotate_spec calls)
    as [[-> _]|(older & victim & newer & Hl & _ & _ & Hl' & _)]; [done|].
  destruct (sip_calls_rotate_keeps calls) as (_ & Hlast & _).
  unfold indexes_below_last in *. rewrite Hl', Hlast. rewrite Hl in Hwf.
  apply Forall_fmap. apply Forall_app in Hwf as [Hold Hnew].
  apply Forall_cons in Hnew as [_ Hnew].
  apply Forall_app. split; (eapply Forall_impl; [done|]);
    intros call; cbn; by rewrite unlink_xcall_index.
Qed.

(** A created call changes the list, whatever left it before: its index
    was not handed out yet. *)
Lemma call_create_changes calls msg l :
  Forall (fun call => index call < last_index calls) l ->
  calls_list (call_create calls msg) <> l.
Proof.
  intros Hwf Heq. cbn in Heq.
  assert (exists call, call ∈ l /\ index call = last_index calls)
    as (call & Hin & Hindex).
  { eexists. split; [rewrite <- Heq; apply elem_of_app; right;
                     apply list_elem_of_singleton; reflexivity|done]. }
  rewrite Forall_forall in Hwf. specialize (Hwf call Hin). lia.
Qed.

Lemma call_create_indexes calls msg :
  indexes_below_last calls -> indexes_below_last (call_create calls msg).
Proof.
  unfold indexes_below_last. cbn. intros Hwf.
  apply Forall_app. split.
  - apply Forall_fmap. eapply Forall_impl; [done|].
    intros call; cbn. rewrite resolve_xcall_index. lia.
  - apply Forall_singleton. cbn. lia.
Qed.

(** One packet: either the list and the flag are as before, or the list is
    another one and the flag is raised. *)
Lemma sip_check_packet_changed calls msg :
  indexes_below_last calls ->
  indexes_below_last (sip_check_packet calls msg).1 /\
  ((calls_list (sip_check_packet calls msg).1 = calls_list calls /\
    changed (sip_check_packet calls msg).1 = changed calls)
   \/
   (calls_list (sip_check_packet calls msg).1 <> calls_list calls /\
    changed (sip_check_packet calls msg).1 = true)).
Proof.
  intros Hwf. unfold sip_check_packet.
  destruct (String.eqb (msg_callid msg) ""); [by auto|].
  destruct (sip_find_by_callid calls (msg_callid msg)) as [call|] eqn:Hfind.
  - cbn. split.
    + apply indexes_below_last_alt. cbn. rewrite add_message_to_index.
      by apply indexes_below_last_alt.
    + right. split; [|done].
      unfold sip_find_by_callid in Hfind.
      destruct (callids calls !! msg_callid msg) as [k|]; [|done].
      cbn in Hfind.
      assert (index call = k) as ->.
      { apply find_some in Hfind as [_ Hk]. lia. }
      by eapply add_message_to_changes.
  - destruct (admitted calls msg); cbn [negb]; [|by auto].
    destruct (sip_calls_count calls =? limit (capture calls))%N.
    + destruct (rotate (capture calls)); [|by auto]. cbn [fst]. split.
      * by apply call_create_indexes, sip_calls_rotate_indexes.
      * right. split; [|done]. apply call_create_changes.
        destruct (sip_calls_rotate_keeps calls) as (_ & -> & _). done.
    + cbn [fst]. split; [by apply call_create_indexes|].
      right. split; [|done]. by apply call_create_changes.
Qed.




(** The invariant on the indexes holds in the registry [sip_init] makes and
    after every packet, so in every state a run reaches. *)
Lemma sip_init_indexes capture_options match_options sort_options calls :
  sip_init capture_options match_options sort_options = Some calls ->
  indexes_below_last calls.
Proof.
  unfold sip_init. intros Hinit.
  destruct (mexpr match_options); [destruct (g_regex_new _ _)|];
    simplify_eq; constructor.
Qed.

Lemma feed_indexes calls packets :
  indexes_below_last calls -> indexes_below_last (feed calls packets).
Proof.
  revert calls. induction packets as [|msg packets IH]; intros calls Hwf;
    [done|].
  apply IH. by apply sip_check_packet_changed.
Qed.

Lemma sip_calls_has_changed_indexes calls :
  indexes_below_last calls ->
  indexes_below_last (sip_calls_has_changed calls).2.
Proof. done. Qed.






End StorageProperties.


(* ================================================================== *)
(** * Runs on concrete calls, filters and packets *)
(* ================================================================== *)

Module Runs.
Import Methods Validate Storage Literal.

Local Abbreviation call_matches :=
  (Filter.call_matches Literal.call_get_attribute Literal.call_list_line_text).
Local Abbreviation filter_step :=
  (Filter.filter_step Literal.call_get_attribute Literal.call_list_line_text).

Lemma literal_attribute_filtered v call id :
  Literal.call_get_attribute (call_set_filtered v call) id =
  Literal.call_get_attribute call id.
Proof. reflexivity. Qed.

Lemma literal_line_text_filtered v call :
  Literal.call_list_line_text (call_set_filtered v call) =
  Literal.call_list_line_text call.
Proof. reflexivity. Qed.

(** *** The scenarios of the specification *)

(** Payload filter [bye]: the call with a BYE is displayed, the call
    without one is rejected. *)
Example payload_filter_bye :
  (filter_check_call g_bye call_alice).1 = true /\
  (filter_check_call g_bye call_bob).1 = false /\
  filtered (st_call (filter_check_call g_bye call_bob).2) = FILTERED_REJECT.
Proof. by vm_compute. Qed.

(** FROM filter [alice] on two fresh calls: one of the two is displayed. *)
Example from_filter_alice :
  map filtered (sip_calls_iterator (calls g_alice)) =
    [FILTERED_PASS; FILTERED_REJECT].
Proof. by vm_compute. Qed.

(** Rotation at limit two: the oldest call leaves; without rotation the
    newest is dropped. *)
Example rotation_at_limit :
  map callid (calls_list (feed (registry 2 true false)
                [invite_of "c1"; invite_of "c2"; invite_of "c3"])) = ["c2"; "c3"]%string
  /\
  map callid (calls_list (feed (registry 2 false false)
                [invite_of "c1"; invite_of "c2"; invite_of "c3"])) = ["c1"; "c2"]%string.
Proof. by vm_compute. Qed.

(** INVITE-only admission: the OPTIONS is dropped and the flag stays down;
    the INVITE creates the call and raises it, once. *)
Example admission_invite_only :
  let r1 := feed (registry 2 true true) [options_of "abc@h"] in
  let r2 := feed r1 [invite_of "abc@h"] in
  calls_list r1 = [] /\
  (sip_calls_has_changed r1).1 = false /\
  length (calls_list r2) = 1%nat /\
  (sip_calls_has_changed r2).1 = true /\
  (sip_calls_has_changed (sip_calls_has_changed r2).2).1 = false.
Proof. by vm_compute. Qed.

(** A dialog keeps its messages in arrival order. *)
Example dialog_append :
  map (fun call => map reqresp (msgs call))
      (calls_list (feed (registry 2 true false)
         [invite_of "x1"; response_of 100 "x1" "SIP/2.0 100 Trying";
          response_of 200 "x1" "SIP/2.0 200 OK"])) = [[2; 100; 200]].
Proof. by vm_compute. Qed.

(** An X-Call-ID that names a call not yet there is resolved when that call
    is created. *)
Example xcallid_late_resolution :
  map (fun call => (callid call, xcall call))
      (calls_list (feed (registry 5 true false)
         [invite_linked "B" "A"; invite_of "A"])) =
    [("B", Some 1); ("A", None)]%string.
Proof. by vm_compute. Qed.

(** A stream payload with four declared bytes: complete with four, partial
    with two, multiple with more, and not SIP without a start-line. *)
Example validate_stream_payloads :
  map (fun body => sip_validate_packet (stream_packet body))
      ["abcd"; "ab"; "abcdOPTIONS sip:carol@example.org SIP/2.0"]%string =
    [VALIDATE_COMPLETE_SIP; VALIDATE_PARTIAL_SIP; VALIDATE_MULTIPLE_SIP].
Proof. by vm_compute. Qed.

(** After the filter change, [filter_reset_calls] makes the next display
    follow the new filter: alice's call is hidden and bob's is shown. *)
Example filter_reset_then_display :
  map (fun call => (filter_check_call (filter_reset_calls g_bob) call).1)
      (sip_calls_iterator (calls (filter_reset_calls g_bob))) = [false; true].
Proof. by vm_compute. Qed.

(** *** The theorems at concrete inputs *)

Lemma filter_check_call_all_enabled_witness :
  call_msg_count call_alice <> 0 /\
  filtered call_alice = FILTERED_UNKNOWN /\
  ((filter_check_call g_bye call_alice).1 = true <->
   forall i, 0 <= i < FILTER_COUNT ->
             filter_enabled g_bye i = true ->
             call_matches g_bye i call_alice = true).
Proof.
  split; [done|]. split; [done|].
  exact (proj1 (filter_check_call_all_enabled
                  Literal.call_get_attribute Literal.call_list_line_text
                  literal_attribute_filtered literal_line_text_filtered
                  g_bye call_alice ltac:(done) eq_refl)).
Defined.

Lemma filter_set_invalid_pattern_witness :
  g_regex_new "(" true = None /\
  filter_set g_alice FILTER_SIPFROM (Some "("%string) = Some (1, g_alice).
Proof.
  split; [reflexivity|].
  exact (filter_set_invalid_pattern g_alice FILTER_SIPFROM "(" eq_refl).
Defined.

Lemma filter_set_keeps_verdicts_witness :
  filter_set g_alice FILTER_SIPFROM (Some "bob"%string) = Some (0, g_bob) /\
  calls g_bob = calls g_alice /\
  filters (filter_reset_calls g_bob) = filters g_bob /\
  Forall (fun call => filtered call = FILTERED_UNKNOWN)
         (sip_calls_iterator (calls (filter_reset_calls g_bob))).
Proof.
  split; [reflexivity|].
  exact (filter_set_keeps_verdicts g_alice FILTER_SIPFROM (Some "bob"%string)
           g_bob eq_refl).
Defined.

(** C3 fails on the code.  After the FROM filter went from [alice] to
    [bob] through a successful [filter_set], the cached verdicts are the
    ones of [alice], none is unknown, and the next display shows alice's
    call, which the new filter does not match, and hides bob's, which it
    matches. *)
Lemma filter_set_leaves_stale_verdicts :
  filter_set g_alice FILTER_SIPFROM (Some "bob"%string) = Some (0, g_bob) /\
  map filtered (sip_calls_iterator (calls g_bob)) =
    [FILTERED_PASS; FILTERED_REJECT] /\
  map (fun call => (filter_check_call g_bob call).1)
      (sip_calls_iterator (calls g_bob)) = [true; false] /\
  map (call_matches g_bob FILTER_SIPFROM)
      (sip_calls_iterator (calls g_bob)) = [false; true].
Proof. by vm_compute. Qed.

Lemma filter_payload_some_message_witness :
  filter_enabled g_bye FILTER_PAYLOAD = true /\
  call_msg_count call_alice <> 0 /\
  filtered call_alice = FILTERED_UNKNOWN /\
  ((filter_step g_bye FILTER_PAYLOAD (at_loop call_alice)).1 = Continue <->
   some_payload_matches g_bye call_alice).
Proof.
  split; [reflexivity|]. split; [done|]. split; [reflexivity|].
  exact (proj1 (filter_payload_some_message
                  Literal.call_get_attribute Literal.call_list_line_text
                  literal_attribute_filtered literal_line_text_filtered
                  g_bye call_alice eq_refl ltac:(done) eq_refl)
               (at_loop call_alice) eq_refl).
Defined.

Lemma filter_check_call_cached_witness :
  call_msg_count call_alice_pass <> 0 /\
  filtered call_alice_pass <> FILTERED_UNKNOWN /\
  filter_check_call g_bob call_alice_pass =
    (true, {| st_call := call_alice_pass; st_evals := [] |}).
Proof.
  split; [done|]. split; [done|].
  exact (proj1 (filter_check_call_cached
                  Literal.call_get_attribute Literal.call_list_line_text
                  literal_attribute_filtered literal_line_text_filtered
                  g_bob call_alice_pass ltac:(done)) ltac:(done)).
Defined.

(** C5 fails on the code for a call without messages: its cached verdict
    is pass, not unknown, and [filter_check_call] returns false. *)
Lemma cached_pass_without_messages :
  filtered call_empty = FILTERED_PASS /\
  filtered call_empty <> FILTERED_UNKNOWN /\
  (filter_check_call g_bob call_empty).1 = false.
Proof. by vm_compute. Qed.

Lemma filter_check_call_no_messages_witness :
  call_msg_count call_empty = 0 /\
  filter_check_call g_bye call_empty =
    (false, {| st_call := call_empty; st_evals := [] |}).
Proof.
  split; [reflexivity|].
  exact (filter_check_call_no_messages
           Literal.call_get_attribute Literal.call_list_line_text
           g_bye call_empty eq_refl).
Defined.

Lemma sip_validate_packet_stream_witness :
  pkt_transport (stream_packet "abcd") = Stream /\
  start_line_matches (pkt_payload (stream_packet "abcd")) = true /\
  (sip_validate_packet (stream_packet "abcd") = 1 <->
   exists n body,
     content_length (pkt_payload (stream_packet "abcd")) = Some n /\
     body_after_headers (pkt_payload (stream_packet "abcd")) = Some body /\
     String.length body = n).
Proof.
  split; [reflexivity|]. split; [reflexivity|].
  exact (proj1 (proj2 (sip_validate_packet_stream
                         start_line_matches content_length body_after_headers
                         (stream_packet "abcd") eq_refl) eq_refl)).
Defined.





End Runs.

(* ================================================================== *)
(** * Further properties of the filter engine *)
(* ================================================================== *)

Section FilterRuns.
Import Filter FilterTrace.
Context `{engine : GRegexEngine}.
Variable call_get_attribute : sip_call_t -> sip_attr_id -> string.
Variable call_list_line_text : sip_call_t -> string.

Local Abbreviation filter_field := (filter_field call_get_attribute call_list_line_text).
Local Abbreviation filter_step := (filter_step call_get_attribute call_list_line_text).
Local Abbreviation filter_loop := (filter_loop call_get_attribute call_list_line_text).
Local Abbreviation filter_check_call :=
  (filter_check_call call_get_attribute call_list_line_text).
Local Abbreviation call_matches :=
  (call_matches call_get_attribute call_list_line_text).
Local Abbreviation call_passes :=
  (call_passes call_get_attribute call_list_line_text).
Local Abbreviation filter_evals :=
  (filter_evals call_get_attribute call_list_line_text).
Local Abbreviation visited := (visited call_get_attribute call_list_line_text).
Local Abbreviation evals_over :=
  (evals_over call_get_attribute call_list_line_text).

(** The inner loop tries the payloads in the order of the messages and
    stops after the first that matches. *)
Lemma payload_loop_evals i filter ms s :
  st_evals (payload_loop i filter ms s).2 =
  st_evals s ++ map (fun msg => (i, msg_get_payload msg))
                    (through_first_match filter ms).
Proof.
  revert s. induction ms as [|msg rest IH]; intros s.
  - cbn. by rewrite app_nil_r.
  - cbn [payload_loop through_first_match]. unfold bind, check_expr.
    rewrite (filter_check_expr_matches filter).
    destruct (filter_matches filter (msg_get_payload msg)); cbn.
    + done.
    + rewrite IH. cbn. by rewrite <- app_assoc.
Qed.

(** One turn of the loop adds the evaluations of its filter. *)
Lemma filter_step_evals g i s c s' :
  0 <= i < FILTER_COUNT ->
  filter_step g i s = (c, s') ->
  st_evals s' = st_evals s ++ filter_evals g i (st_call s).
Proof.
  intros Hi. unfold Filter.filter_step, FilterTrace.filter_evals, filter_enabled.
  destruct (expr (filters_at g i)) as [e|] eqn:He.
  2: { rewrite bool_decide_eq_false_2 by (by intros [? ?]).
       cbn. intros [= <- <-]. by rewrite app_nil_r. }
  rewrite bool_decide_eq_true_2 by eauto.
  unfold bind at 1. cbn [get_call].
  destruct (filter_field_in_range call_get_attribute call_list_line_text
              i (st_call s) Hi) as [data Hdata].
  rewrite Hdata. cbn [from_option id].
  destruct (i =? FILTER_PAYLOAD).
  - unfold bind, set_filtered, get_call. cbn [st_call st_evals].
    pose proof (payload_loop_evals i (filters_at g i) (msgs (st_call s))
      {| st_call := call_set_filtered 1 (st_call s); st_evals := st_evals s |})
      as Hevals.
    destruct (payload_loop i (filters_at g i) (msgs (st_call s)) _)
      as [[] s1]. cbn [snd st_evals] in Hevals.
    destruct (filtered (st_call s1) =? 1); cbn; by intros [= <- <-].
  - unfold bind, check_expr.
    destruct (negb _); cbn; by intros [= <- <-].
Qed.

(** The loop from a verdict of pass, in one equation: it ends by its end
    or by [break], the verdict is the conjunction over the filter types, and
    the evaluations are those of the types up to the first that fails. *)
Lemma filter_loop_run g todo s :
  Forall (fun i => 0 <= i < FILTER_COUNT) todo ->
  filtered (st_call s) = 0 ->
  filter_loop g todo s =
    (None,
     {| st_call :=
          call_set_filtered
            (if forallb (fun i => call_passes g i (st_call s)) todo
             then 0 else 1) (st_call s);
        st_evals := st_evals s ++ evals_over g (st_call s) todo |}).
Proof.
  intros Hrange. revert s.
  induction Hrange as [|i rest Hi Hrest IH]; intros s Hpass.
  - cbn. unfold ret. rewrite app_nil_r, <- Hpass, call_set_filtered_same.
    by destruct s.
  - cbn [Filter.filter_loop forallb]. unfold bind.
    destruct (filter_step g i s) as [c s1] eqn:Hstep.
    pose proof (filter_step_evals g i s c s1 Hi Hstep) as Hevals.
    apply filter_step_spec in Hstep; [|done..].
    unfold FilterTrace.evals_over. cbn [FilterTrace.visited].
    destruct (call_passes g i (st_call s)); cbn [andb map concat];
      destruct Hstep as [-> Hs1].
    + rewrite IH by (by rewrite Hs1). rewrite Hs1, Hevals.
      unfold FilterTrace.evals_over. by rewrite <- app_assoc.
    + unfold ret. rewrite app_nil_r. destruct s1; cbn in *. by subst.
Qed.

(** [filter_check_call] on a call that has messages and an unknown verdict,
    in one equation. *)
Lemma filter_check_call_unknown_run g call :
  call_msg_count call <> 0 ->
  filtered call = -1 ->
  filter_check_call g call =
    (forallb (fun i => call_passes g i (call_set_filtered 0 call))
             (seqZ 0 FILTER_COUNT),
     {| st_call :=
          call_set_filtered
            (if forallb (fun i => call_passes g i (call_set_filtered 0 call))
                        (seqZ 0 FILTER_COUNT)
             then 0 else 1) call;
        st_evals :=
          evals_over g (call_set_filtered 0 call) (seqZ 0 FILTER_COUNT) |}).
Proof.
  intros Hcount Hunknown.
  unfold Filter.filter_check_call, filter_check_call_body.
  unfold bind at 1. cbn [get_call st_call].
  destruct (Z.eqb_spec (call_msg_count call) 0) as [|_]; [done|].
  rewrite Hunknown. change (negb (-1 =? -1)) with false. cbv iota.
  unfold bind, set_filtered. cbn [st_call st_evals].
  rewrite filter_loop_run by (apply seqZ_filter_types || done).
  cbn [st_call st_evals app]. unfold get_call, ret. cbn [st_call].
  generalize (forallb (fun i => call_passes g i (call_set_filtered 0 call))
                      (seqZ 0 FILTER_COUNT)).
  by intros [|].
Qed.

(** [filter_check_call] on a call that has messages and a cached verdict. *)
Lemma filter_check_call_hit g call :
  call_msg_count call <> 0 ->
  filtered call <> -1 ->
  filter_check_call g call =
    (filtered call =? 0, {| st_call := call; st_evals := [] |}).
Proof.
  intros Hcount Hknown.
  unfold Filter.filter_check_call, filter_check_call_body, bind.
  cbn [get_call st_call].
  destruct (Z.eqb_spec (call_msg_count call) 0) as [|_]; [done|].
  by destruct (Z.eqb_spec (filtered call) (-1)) as [|_].
Qed.

(** [filter_check_call] on a call without messages. *)
Lemma filter_check_call_empty g call :
  call_msg_count call = 0 ->
  filter_check_call g call = (false, {| st_call := call; st_evals := [] |}).
Proof.
  intros Hcount.
  unfold Filter.filter_check_call, filter_check_call_body, bind.
  cbn [get_call st_call]. by rewrite Hcount.
Qed.

(** *** filter_set and filter_get *)

(** A successful [filter_set], read backwards. *)
Lemma filter_set_success g type e g' :
  filter_set g type e = Some (0, g') <->
  0 <= type < FILTER_COUNT /\
  (forall s, e = Some s -> is_Some (g_regex_new s true)) /\
  g' = set_filters
         (<[Z.to_nat type :=
              {| expr := e; regex := e ≫= fun s => g_regex_new s true |}]>
            (filters g)) g.
Proof.
  unfold filter_set. split.
  - destruct e as [s|]; [destruct (g_regex_new s true) as [re|] eqn:Hre|];
      cbn; try case_bool_decide; intros [= <-]; repeat split; try done;
      try lia.
    + intros ? [= <-]. rewrite Hre. eauto.
    + cbn. by rewrite Hre.
  - intros (Hrange & Hcompiles & ->).
    destruct e as [s|].
    + destruct (Hcompiles s eq_refl) as [re Hre]. rewrite Hre. cbn.
      rewrite bool_decide_eq_true_2 by done. by rewrite Hre.
    + cbn. by rewrite bool_decide_eq_true_2.
Qed.

(** X2.  For a filter type of the table, [filter_set] returns 0 or 1 and
    never anything else; it returns 1 exactly when an expression is given
    and does not compile, so clearing a filter with [NULL] always
    succeeds. *)
Theorem filter_set_result g type e :
  0 <= type < FILTER_COUNT ->
  exists code g',
    filter_set g type e = Some (code, g') /\
    (code = 0 \/ code = 1) /\
    (code = 1 <-> exists s, e = Some s /\ g_regex_new s true = None) /\
    (e = None -> code = 0).
Proof.
  intros Hrange. unfold filter_set.
  destruct e as [s|]; [destruct (g_regex_new s true) as [re|] eqn:Hre|];
    rewrite ?bool_decide_eq_true_2 by done; eexists _, _;
    (split; [reflexivity|]); repeat split; auto; try done.
  - intros (? & [= <-] & ?). congruence.
  - eauto.
  - by intros (? & ? & _).
Qed.

(** X3.  Setting the filter of one type twice keeps the second expression
    only: the state is the one the second [filter_set] alone gives. *)
Theorem filter_set_last_wins g type e1 e2 g1 g2 :
  filter_set g type e1 = Some (0, g1) ->
  filter_set g1 type e2 = Some (0, g2) ->
  filter_set g type e2 = Some (0, g2).
Proof.
  rewrite !filter_set_success.
  intros (Hrange & _ & ->) (_ & Hcompiles & ->).
  split; [done|]. split; [done|]. unfold set_filters. cbn [filters calls].
  by rewrite list_insert_insert_eq.
Qed.

(** X4.  The filters of two different types can be set in either order: the
    other order succeeds too and ends in the same state. *)
Theorem filter_set_commute g type1 e1 type2 e2 g1 g12 :
  type1 <> type2 ->
  filter_set g type1 e1 = Some (0, g1) ->
  filter_set g1 type2 e2 = Some (0, g12) ->
  exists g2,
    filter_set g type2 e2 = Some (0, g2) /\
    filter_set g2 type1 e1 = Some (0, g12).
Proof.
  intros Hne. rewrite !filter_set_success.
  intros (Hrange1 & Hc1 & ->) (Hrange2 & Hc2 & ->).
  eexists. split; [by rewrite filter_set_success|].
  rewrite filter_set_success. split; [done|]. split; [done|].
  unfold set_filters. cbn [filters calls].
  f_equal. apply list_insert_insert_ne. lia.
Qed.

(** *** filter_check_call *)

(** X5.  A second [filter_check_call] on the call the first one left is
    answered from the cache: it returns what the first returned, leaves the
    call as it is and evaluates no filter.  This holds for every call. *)
Theorem filter_check_call_twice g call :
  filter_check_call g (st_call (filter_check_call g call).2) =
    ((filter_check_call g call).1,
     {| st_call := st_call (filter_check_call g call).2; st_evals := [] |}).
Proof.
  destruct (decide (call_msg_count call = 0)) as [Hempty|Hcount].
  { rewrite (filter_check_call_empty g call Hempty). cbn [fst snd st_call].
    by apply filter_check_call_empty. }
  destruct (decide (filtered call = -1)) as [Hunknown|Hknown].
  - rewrite (filter_check_call_unknown_run g call Hcount Hunknown).
    cbn [fst snd st_call].
    generalize (forallb (fun i => call_passes g i (call_set_filtered 0 call))
                        (seqZ 0 FILTER_COUNT)).
    intros [|]; by rewrite filter_check_call_hit.
  - rewrite (filter_check_call_hit g call Hcount Hknown). cbn [fst snd st_call].
    by apply filter_check_call_hit.
Qed.

(** X6.  [filter_check_call] writes nothing of the call but its cached
    verdict: the call it leaves is the call it got with, at most, another
    [filtered]; the messages in particular are the same. *)
Theorem filter_check_call_writes_verdict_only g call :
  st_call (filter_check_call g call).2 =
    call_set_filtered (filtered (st_call (filter_check_call g call).2)) call
  /\ msgs (st_call (filter_check_call g call).2) = msgs call.
Proof.
  assert (st_call (filter_check_call g call).2 =
          call_set_filtered (filtered (st_call (filter_check_call g call).2)) call)
    as Hframe.
  { destruct (decide (call_msg_count call = 0)) as [Hempty|Hcount].
    { rewrite (filter_check_call_empty g call Hempty). cbn.
      by rewrite call_set_filtered_same. }
    destruct (decide (filtered call = -1)) as [Hunknown|Hknown].
    - by rewrite (filter_check_call_unknown_run g call Hcount Hunknown).
    - rewrite (filter_check_call_hit g call Hcount Hknown). cbn.
      by rewrite call_set_filtered_same. }
  split; [done|]. by rewrite Hframe.
Qed.

Lemma through_first_match_length filter ms :
  (length (through_first_match filter ms) <= length ms)%nat.
Proof.
  induction ms as [|msg rest IH]; [done|].
  cbn. destruct (filter_matches filter (msg_get_payload msg)); cbn; lia.
Qed.

Lemma filter_evals_length g i call :
  (length (filter_evals g i call) <=
   (if filter_enabled g i then 1 else 0) +
   (if (i =? FILTER_PAYLOAD)%Z then length (msgs call) else 0))%nat.
Proof.
  unfold FilterTrace.filter_evals.
  destruct (filter_enabled g i); [|cbn; lia].
  destruct (i =? FILTER_PAYLOAD); [|cbn; lia].
  rewrite length_map.
  pose proof (through_first_match_length (filters_at g i) (msgs call)). lia.
Qed.

Lemma evals_over_length g call todo :
  (length (evals_over g call todo) <=
   enabled_count g todo +
   length (msgs call) *
   length (List.filter (fun i => (i =? FILTER_PAYLOAD)%Z) todo))%nat.
Proof.
  unfold FilterTrace.evals_over, enabled_count.
  induction todo as [|i rest IH]; [cbn; lia|].
  cbn [FilterTrace.visited map concat List.filter].
  rewrite length_app.
  pose proof (filter_evals_length g i call) as Hhead.
  assert (length (concat (map (fun i => filter_evals g i call)
            (if call_passes g i call then visited g call rest else []))) <=
          length (List.filter (filter_enabled g) rest) +
          length (msgs call) *
          length (List.filter (fun i => (i =? FILTER_PAYLOAD)%Z) rest))%nat
    as Hrest by (destruct (call_passes g i call); cbn; lia).
  destruct (filter_enabled g i); destruct (i =? FILTER_PAYLOAD);
    cbn [length]; lia.
Qed.

(** X9.  The work of one [filter_check_call] is bounded: it evaluates at
    most one pattern per enabled filter and one more per message of the
    call, whatever the call and its cached verdict. *)
Theorem filter_check_call_evals_bound g call :
  (length (st_evals (filter_check_call g call).2) <=
   enabled_count g (seqZ 0 FILTER_COUNT) + length (msgs call))%nat.
Proof.
  destruct (decide (call_msg_count call = 0)) as [Hempty|Hcount].
  { rewrite (filter_check_call_empty g call Hempty). cbn. lia. }
  destruct (decide (filtered call = -1)) as [Hunknown|Hknown].
  - rewrite (filter_check_call_unknown_run g call Hcount Hunknown).
    cbn [snd st_evals].
    pose proof (evals_over_length g (call_set_filtered 0 call)
                  (seqZ 0 FILTER_COUNT)) as Hbound.
    change (length (List.filter (fun i => i =? FILTER_PAYLOAD)
                                (seqZ 0 FILTER_COUNT)))
      with 1%nat in Hbound.
    cbn [msgs call_set_filtered] in Hbound. lia.
  - rewrite (filter_check_call_hit g call Hcount Hknown). cbn. lia.
Qed.

Lemma visited_subset g call todo i : i ∈ visited g call todo -> i ∈ todo.
Proof.
  induction todo as [|j rest IH]; [done|].
  cbn. intros [->|Hin]%elem_of_cons; [left|].
  destruct (call_passes g j call); [right; auto|by apply elem_of_nil in Hin].
Qed.

(** X10.  With no filter enabled, a call that has messages and an unknown
    verdict is displayed, its verdict becomes pass, and no pattern is
    evaluated. *)
Theorem filter_check_call_no_filter g call :
  (forall i, 0 <= i < FILTER_COUNT -> filter_enabled g i = false) ->
  call_msg_count call <> 0 ->
  filtered call = FILTERED_UNKNOWN ->
  filter_check_call g call =
    (true, {| st_call := call_set_filtered FILTERED_PASS call; st_evals := [] |}).
Proof.
  intros Hoff Hcount Hunknown.
  rewrite (filter_check_call_unknown_run g call Hcount Hunknown).
  assert (forallb (fun i => call_passes g i (call_set_filtered 0 call))
                  (seqZ 0 FILTER_COUNT) = true) as ->.
  { apply forallb_filter_types. intros i Hi.
    unfold Filter.call_passes. by rewrite (Hoff i Hi). }
  f_equal. f_equal. unfold FilterTrace.evals_over.
  assert (forall l, Forall (fun i => 0 <= i < FILTER_COUNT) l ->
            concat (map (fun i => filter_evals g i (call_set_filtered 0 call)) l)
            = []) as Hnil.
  { induction 1 as [|i l Hi _ IH]; [done|]. cbn. rewrite IH.
    unfold FilterTrace.filter_evals. by rewrite (Hoff i Hi). }
  apply Hnil, Forall_forall. intros i Hin%visited_subset.
  pose proof seqZ_filter_types as Hall. rewrite Forall_forall in Hall. auto.
Qed.

(** *** With accessors that do not read the cached verdict

    As for the claims: the accessors render a call from its messages and
    endpoints. *)
Hypothesis call_get_attribute_filtered : forall v call id,
  call_get_attribute (call_set_filtered v call) id = call_get_attribute call id.
Hypothesis call_list_line_text_filtered : forall v call,
  call_list_line_text (call_set_filtered v call) = call_list_line_text call.

Lemma evals_over_filtered g v call todo :
  evals_over g (call_set_filtered v call) todo = evals_over g call todo.
Proof.
  unfold FilterTrace.evals_over.
  induction todo as [|i rest IH]; [done|].
  cbn [FilterTrace.visited map concat].
  rewrite (call_passes_filtered call_get_attribute call_list_line_text)
    by done.
  assert (filter_evals g i (call_set_filtered v call) = filter_evals g i call)
    as ->.
  { unfold FilterTrace.filter_evals.
    by rewrite (filter_field_filtered call_get_attribute call_list_line_text). }
  destruct (call_passes g i call); [by rewrite IH|done].
Qed.

Lemma filter_check_call_unknown_evals g call :
  call_msg_count call <> 0 ->
  filtered call = -1 ->
  st_evals (filter_check_call g call).2 =
    evals_over g call (seqZ 0 FILTER_COUNT).
Proof.
  intros Hcount Hunknown.
  rewrite (filter_check_call_unknown_run g call Hcount Hunknown).
  cbn [snd st_evals]. apply evals_over_filtered.
Qed.

(** X7.  The evaluations of a [filter_check_call] on a call that has
    messages and an unknown verdict, in full: the filters are tried in the
    order of their types, up to and including the first the call does not
    match; a filter that is off takes no evaluation, a filter other than
    PAYLOAD one evaluation on its field, and PAYLOAD one evaluation per
    message, in the order of the messages, up to and including the first
    payload that matches. *)
Theorem filter_check_call_evals g call :
  call_msg_count call <> 0 ->
  filtered call = FILTERED_UNKNOWN ->
  st_evals (filter_check_call g call).2 =
    evals_over g call (seqZ 0 FILTER_COUNT).
Proof. apply filter_check_call_unknown_evals. Qed.

Lemma visited_seqZ_le g call (n : nat) a i j :
  a <= i < a + Z.of_nat n ->
  call_passes g i call = false ->
  j ∈ visited g call (seqZ a (Z.of_nat n)) ->
  j <= i.
Proof.
  revert a. induction n as [|n IH]; intros a Hi Hfail; [lia|].
  rewrite seqZ_cons by lia. cbn [FilterTrace.visited].
  intros [->|Hin]%elem_of_cons; [lia|].
  destruct (call_passes g a call) eqn:Hpass; [|by apply elem_of_nil in Hin].
  assert (a <> i) by congruence.
  replace (Z.pred (Z.of_nat (S n))) with (Z.of_nat n) in Hin by lia.
  apply (IH (Z.succ a)); [lia|done..].
Qed.

Lemma elem_of_evals_over g call todo e :
  e ∈ evals_over g call todo ->
  e.1 ∈ visited g call todo /\ filter_enabled g e.1 = true.
Proof.
  unfold FilterTrace.evals_over.
  induction (visited g call todo) as [|i rest IH]; cbn [map concat].
  - by intros ?%elem_of_nil.
  - intros [Hhead|Hrest]%elem_of_app.
    + unfold FilterTrace.filter_evals in Hhead.
      destruct (filter_enabled g i) eqn:Hon; [|by apply elem_of_nil in Hhead].
      assert (e.1 = i) as ->; [|split; [left|done]].
      destruct (i =? FILTER_PAYLOAD).
      * apply list_elem_of_fmap in Hhead as (msg & -> & _). done.
      * apply list_elem_of_singleton in Hhead as ->. done.
    + destruct (IH Hrest). split; [by right|done].
Qed.

(** X8.  The evaluation stops at the first filter that fails, and filters
    that are off are never evaluated: when an enabled filter of type [i]
    does not match the call, every evaluation made is for an enabled filter
    of a type up to [i]. *)
Theorem filter_check_call_short_circuit g call i :
  call_msg_count call <> 0 ->
  filtered call = FILTERED_UNKNOWN ->
  0 <= i < FILTER_COUNT ->
  filter_enabled g i = true ->
  call_matches g i call = false ->
  Forall (fun e => e.1 <= i /\ filter_enabled g e.1 = true)
         (st_evals (filter_check_call g call).2).
Proof.
  intros Hcount Hunknown Hi Hon Hno.
  rewrite (filter_check_call_unknown_evals g call Hcount Hunknown).
  apply Forall_forall. intros e [Hvisited Henabled]%elem_of_evals_over.
  split; [|done].
  apply (visited_seqZ_le g call 7 0 i); [done| |done].
  unfold Filter.call_passes. by rewrite Hon, Hno.
Qed.

(** X11.  The way to change a filter: after a successful [filter_set] and
    [filter_reset_calls], [filter_check_call] displays a listed call that
    has messages exactly when the call matches every filter enabled now;
    the entry of the changed type holds the new expression with its
    compiled pattern. *)
Theorem filter_change_takes_effect g type e g' call :
  length (filters g) = Z.to_nat FILTER_COUNT ->
  filter_set g type e = Some (0, g') ->
  call ∈ sip_calls_iterator (calls (filter_reset_calls g')) ->
  call_msg_count call <> 0 ->
  ((filter_check_call (filter_reset_calls g') call).1 = true <->
   forall i, 0 <= i < FILTER_COUNT ->
             filter_enabled g' i = true -> call_matches g' i call = true)
  /\
  filters_at g' type =
    {| expr := e; regex := e ≫= fun s => g_regex_new s true |}.
Proof.
  intros Hlen Hset Hin Hcount. split.
  - assert (filtered call = -1) as Hunknown.
    { cbn in Hin. by apply list_elem_of_fmap in Hin as (call0 & -> & _). }
    destruct (filter_check_call_unknown call_get_attribute call_list_line_text
                call_get_attribute_filtered call_list_line_text_filtered
                (filter_reset_calls g') call Hcount Hunknown) as [-> _].
    rewrite forallb_filter_types.
    split; intros H i Hi; specialize (H i Hi);
      by apply (call_passes_true call_get_attribute call_list_line_text).
  - apply filter_set_success in Hset as (Hrange & _ & ->).
    unfold filters_at, set_filters. cbn [filters].
    rewrite list_lookup_insert_eq; [done|]. rewrite Hlen. lia.
Qed.

End FilterRuns.

(* ================================================================== *)
(** * Properties of the panel pool *)
(* ================================================================== *)

Section UiProperties.
Import UiManager.

Lemma find_from_None test i l :
  find_from test i l = None <-> Forall (fun ui => test ui = false) l.
Proof.
  revert i. induction l as [|ui rest IH]; intros i; cbn.
  - split; [constructor|done].
  - destruct (test ui) eqn:Htest.
    + split; [done|]. intros [? _]%Forall_cons. congruence.
    + rewrite IH. split; [by constructor|by intros [_ ?]%Forall_cons].
Qed.

Lemma find_from_Some test i l k :
  find_from test i l = Some k ->
  exists j ui,
    k = (i + j)%nat /\ l !! j = Some ui /\ test ui = true /\
    forall j' ui', (j' < j)%nat -> l !! j' = Some ui' -> test ui' = false.
Proof.
  revert i. induction l as [|ui rest IH]; intros i; cbn; [done|].
  destruct (test ui) eqn:Htest.
  - intros [= <-]. exists 0%nat, ui. repeat split; [lia|done|lia].
  - intros (j & uj & -> & Hj & Htj & Hfirst)%IH.
    exists (S j), uj. repeat split; [lia|done..|].
    intros [|j'] ui' Hlt; cbn; [by intros [= <-]|].
    apply Hfirst. lia.
Qed.

(** X12.  [ui_find_by_type] returns the first entry of the pool that has the
    type, and [NULL] exactly when no entry has it. *)
Theorem ui_find_by_type_first m t :
  match ui_find_by_type m t with
  | Some i =>
      exists ui, pool m !! i = Some ui /\ type ui = t /\
        forall j uj, (j < i)%nat -> pool m !! j = Some uj -> type uj <> t
  | None => forall ui, ui ∈ pool m -> type ui <> t
  end.
Proof.
  unfold ui_find_by_type.
  destruct (find_from _ 0 (pool m)) as [i|] eqn:Hfind.
  - apply find_from_Some in Hfind as (j & ui & -> & Hj & Ht & Hfirst).
    exists ui. repeat split; [done|lia|].
    intros j' uj Hlt Hj' Heq. specialize (Hfirst j' uj Hlt Hj'). lia.
  - apply find_from_None in Hfind. rewrite Forall_forall in Hfind.
    intros ui Hin Heq. specialize (Hfind ui Hin). lia.
Qed.

(** X13.  [ui_find_by_panel] returns the first entry of the pool whose panel
    pointer is the given one, and [NULL] exactly when no entry has it.  The
    comparison does not set [NULL] apart: asked for the [NULL] panel, the
    function answers [NULL] only when every entry has a panel, and the
    first entry without one otherwise. *)
Theorem ui_find_by_panel_first m p :
  match ui_find_by_panel m p with
  | Some i =>
      exists ui, pool m !! i = Some ui /\ panel ui = p /\
        forall j uj, (j < i)%nat -> pool m !! j = Some uj -> panel uj <> p
  | None => forall ui, ui ∈ pool m -> panel ui <> p
  end
  /\
  (ui_find_by_panel m None = None <->
   forall ui, ui ∈ pool m -> is_Some (panel ui)).
Proof.
  unfold ui_find_by_panel. split.
  - destruct (find_from _ 0 (pool m)) as [i|] eqn:Hfind.
    + apply find_from_Some in Hfind as (j & ui & -> & Hj & Ht & Hfirst).
      exists ui. apply bool_decide_eq_true in Ht. repeat split; [done..|].
      intros j' uj Hlt Hj' Heq. specialize (Hfirst j' uj Hlt Hj').
      by apply bool_decide_eq_false in Hfirst.
    + apply find_from_None in Hfind. rewrite Forall_forall in Hfind.
      intros ui Hin Heq. specialize (Hfind ui Hin).
      by apply bool_decide_eq_false in Hfind.
  - rewrite find_from_None, Forall_forall.
    split; intros H ui Hin; specialize (H ui Hin).
    + apply bool_decide_eq_false in H. by destruct (panel ui); [eauto|].
    + apply bool_decide_eq_false. by destruct H as [? ->].
Qed.

Lemma find_from_types t i l l' :
  map type l = map type l' ->
  find_from (fun ui => type ui =? t) i l =
  find_from (fun ui => type ui =? t) i l'.
Proof.
  revert i l'. induction l as [|ui rest IH]; intros i [|ui' rest']; try done.
  cbn. intros [= -> Hrest]. by rewrite (IH _ _ Hrest).
Qed.

Lemma insert_set_panel_types (l : list ui_t) i ui p :
  l !! i = Some ui ->
  map type (<[i := ui_set_panel p ui]> l) = map type l.
Proof.
  intros Hi. apply list_eq. intros j.
  rewrite !list_lookup_fmap.
  destruct (decide (i = j)) as [<-|Hne].
  - rewrite list_lookup_insert_eq by (by eapply lookup_lt_Some).
    by rewrite Hi.
  - by rewrite list_lookup_insert_ne.
Qed.

Section Creators.
Variable created : list ui_event -> Z -> option PANEL.
Local Abbreviation ui_create := (ui_create created).

Lemma ui_create_returns m t :
  (ui_create m t).1 = ui_find_by_type m t /\
  map type (pool (ui_create m t).2) = map type (pool m).
Proof.
  unfold UiManager.ui_create.
  destruct (ui_find_by_type m t) as [i|]; [|done].
  destruct (ui_get_panel m (Some i)); [done|].
  destruct (pool m !! i) as [ui|] eqn:Hi; [|done].
  destruct (create ui); [|done]. cbn.
  split; [done|]. by apply insert_set_panel_types.
Qed.

(** X14.  [ui_create] returns what [ui_find_by_type] finds, [NULL] for a type
    that is not in the pool; it keeps the size of the pool and the type of
    every entry, and leaves every entry but the returned one as it is. *)
Theorem ui_create_frame m t :
  (ui_create m t).1 = ui_find_by_type m t /\
  map type (pool (ui_create m t).2) = map type (pool m) /\
  (forall j, Some j <> ui_find_by_type m t ->
             pool (ui_create m t).2 !! j = pool m !! j) /\
  (ui_find_by_type m t = None -> (ui_create m t).2 = m).
Proof.
  unfold UiManager.ui_create.
  destruct (ui_find_by_type m t) as [i|]; [|by repeat split].
  destruct (ui_get_panel m (Some i)); [by repeat split|].
  destruct (pool m !! i) as [ui|] eqn:Hi; [|by repeat split].
  destruct (create ui); [|by repeat split]. cbn.
  split; [done|]. split; [by apply insert_set_panel_types|].
  split; [|done].
  intros j Hj. apply list_lookup_insert_ne. congruence.
Qed.

(** X15.  [ui_create] makes a panel once: for a ui that has a panel it calls
    no creator and changes nothing, so a second [ui_create] of a type whose
    panel the first one made, or found, returns the same ui and leaves the
    state as it is. *)
Theorem ui_create_once m t :
  (is_Some (ui_get_panel m (ui_find_by_type m t)) -> (ui_create m t).2 = m)
  /\
  (is_Some (ui_get_panel (ui_create m t).2 (ui_create m t).1) ->
   ui_create (ui_create m t).2 t = ui_create m t).
Proof.
  split.
  - unfold UiManager.ui_create. intros [p Hp].
    destruct (ui_find_by_type m t) as [i|]; [|done]. by rewrite Hp.
  - destruct (ui_create_returns m t) as (Hret & Htypes).
    intros [p Hp]. rewrite Hret in Hp.
    destruct (ui_create m t) as [ui m'] eqn:Hcreate. cbn [fst snd] in *.
    unfold UiManager.ui_create.
    assert (ui_find_by_type m' t = ui_find_by_type m t) as ->
      by (by apply find_from_types).
    destruct (ui_find_by_type m t) as [i|]; [|done].
    rewrite Hp. by rewrite <- Hret.
Qed.

End Creators.


(** [ui_create] and [ui_destroy] write the panel pointer of an entry and
    nothing else of it. *)
Lemma insert_set_panel_declared (l : list ui_t) i ui p :
  l !! i = Some ui ->
  map ui_declared (<[i := ui_set_panel p ui]> l) = map ui_declared l.
Proof.
  intros Hi. apply list_eq. intros j.
  rewrite !list_lookup_fmap.
  destruct (decide (i = j)) as [<-|Hne].
  - rewrite list_lookup_insert_eq by (by eapply lookup_lt_Some).
    by rewrite Hi.
  - by rewrite list_lookup_insert_ne.
Qed.

Lemma ui_create_declared created m t :
  map ui_declared (pool (ui_create created m t).2) = map ui_declared (pool m).
Proof.
  unfold ui_create.
  destruct (ui_find_by_type m t) as [i|]; [|done].
  destruct (ui_get_panel m (Some i)); [done|].
  destruct (pool m !! i) as [ui|] eqn:Hi; [|done].
  destruct (create ui); [|done]. cbn. by apply insert_set_panel_declared.
Qed.

Lemma ui_destroy_declared m ui :
  map ui_declared (pool (ui_destroy m ui)) = map ui_declared (pool m).
Proof.
  unfold ui_destroy.
  destruct (ui_get_panel m ui) as [p|]; [|done].
  destruct ui as [i|]; [|done].
  destruct (pool m !! i) as [entry|] eqn:Hi; [|done].
  cbn. by apply insert_set_panel_declared.
Qed.

Section PanelTypes.
Variables MAIN_PANEL DETAILS_PANEL DETAILS_PANEL_EX RAW_PANEL : Z.
Local Abbreviation panel_pool :=
  (panel_pool MAIN_PANEL DETAILS_PANEL DETAILS_PANEL_EX RAW_PANEL).

(** X17.  In every state of the pool declared in [ui_manager.c], with four
    different type ids: the four panel types are found, each at its own
    entry; and [ui_destroy] of the extended call flow or of the raw panel,
    which have no [destroy] function, takes the panel pointer away without
    calling any destructor. *)
Theorem ui_destroy_without_destructor m t :
  NoDup [MAIN_PANEL; DETAILS_PANEL; DETAILS_PANEL_EX; RAW_PANEL] ->
  map ui_declared (pool m) = map ui_declared panel_pool ->
  (ui_find_by_type m MAIN_PANEL = Some 0%nat /\
   ui_find_by_type m DETAILS_PANEL = Some 1%nat /\
   ui_find_by_type m DETAILS_PANEL_EX = Some 2%nat /\
   ui_find_by_type m RAW_PANEL = Some 3%nat)
  /\
  (t = DETAILS_PANEL_EX \/ t = RAW_PANEL ->
   events (ui_destroy m (ui_find_by_type m t)) = events m /\
   ui_get_panel (ui_destroy m (ui_find_by_type m t)) (ui_find_by_type m t)
     = None).
Proof.
  intros Hids Hpool.
  destruct m as [[|u0 [|u1 [|u2 [|u3 [|u4 rest]]]]] evs]; try done.
  assert (type u0 = MAIN_PANEL /\ type u1 = DETAILS_PANEL /\
          type u2 = DETAILS_PANEL_EX /\ type u3 = RAW_PANEL /\
          destroy u2 = false /\ destroy u3 = false)
    as (Ht0 & Ht1 & Ht2 & Ht3 & Hd2 & Hd3).
  { cbn in Hpool. unfold ui_declared in Hpool.
    injection Hpool; intros; repeat split; assumption. }
  clear Hpool.
  apply NoDup_cons in Hids as [Hm Hids].
  apply NoDup_cons in Hids as [Hd Hids].
  apply NoDup_cons in Hids as [Hx _].
  apply not_elem_of_cons in Hm as [Hm1 Hm].
  apply not_elem_of_cons in Hm as [Hm2 Hm].
  apply not_elem_of_cons in Hm as [Hm3 _].
  apply not_elem_of_cons in Hd as [Hd1 Hd].
  apply not_elem_of_cons in Hd as [Hd4 _].
  apply not_elem_of_cons in Hx as [Hx1 _].
  assert (ui_find_by_type {| pool := [u0; u1; u2; u3]; events := evs |}
            MAIN_PANEL = Some 0%nat /\
          ui_find_by_type {| pool := [u0; u1; u2; u3]; events := evs |}
            DETAILS_PANEL = Some 1%nat /\
          ui_find_by_type {| pool := [u0; u1; u2; u3]; events := evs |}
            DETAILS_PANEL_EX = Some 2%nat /\
          ui_find_by_type {| pool := [u0; u1; u2; u3]; events := evs |}
            RAW_PANEL = Some 3%nat) as Hfind.
  { unfold ui_find_by_type. cbn. rewrite Ht0, Ht1, Ht2, Ht3.
    rewrite !Z.eqb_refl.
    repeat match goal with
           | |- context [?a =? ?b] =>
               rewrite (proj2 (Z.eqb_neq a b)) by lia
           end.
    done. }
  split; [done|].
  destruct Hfind as (_ & _ & Hx2 & Hx3).
  intros [-> | ->]; rewrite ?Hx2, ?Hx3; unfold ui_destroy; cbn;
    [destruct (panel u2) eqn:Hp|destruct (panel u3) eqn:Hp]; cbn;
    rewrite ?Hd2, ?Hd3; done.
Qed.

End PanelTypes.

End UiProperties.

(* ================================================================== *)
(** * Further runs on concrete inputs *)
(* ================================================================== *)

Module MoreRuns.
Import Filter FilterTrace Literal LiteralStates UiManager UiSample.

Local Abbreviation call_matches :=
  (Filter.call_matches Literal.call_get_attribute Literal.call_list_line_text).
Local Abbreviation evals_over :=
  (FilterTrace.evals_over Literal.call_get_attribute Literal.call_list_line_text).

Lemma filter_set_get_witness :
  length (filters g_alice) = Z.to_nat FILTER_COUNT /\
  filter_set g_alice FILTER_SIPFROM (Some "bob"%string) = Some (0, g_bob) /\
  filter_get g_bob FILTER_SIPFROM = Some "bob"%string.
Proof.
  split; [reflexivity|]. split; [reflexivity|].
  exact (proj1 (filter_set_get g_alice FILTER_SIPFROM (Some "bob"%string)
                  g_bob eq_refl eq_refl)).
Defined.

Lemma filter_set_result_witness :
  0 <= FILTER_METHOD < FILTER_COUNT /\
  exists code g',
    filter_set g_alice FILTER_METHOD (Some "("%string) = Some (code, g') /\
    (code = 0 \/ code = 1) /\
    (code = 1 <->
     exists s, Some "("%string = Some s /\ g_regex_new s true = None) /\
    (Some "("%string = None -> code = 0).
Proof.
  split; [done|].
  exact (filter_set_result g_alice FILTER_METHOD (Some "("%string)
           ltac:(done)).
Defined.

Lemma filter_set_last_wins_witness :
  filter_set g_alice FILTER_SIPFROM (Some "bob"%string) = Some (0, g_bob) /\
  filter_set g_bob FILTER_SIPFROM None =
    Some (0, after_filter_clear g_bob FILTER_SIPFROM) /\
  filter_set g_alice FILTER_SIPFROM None =
    Some (0, after_filter_clear g_bob FILTER_SIPFROM).
Proof.
  split; [reflexivity|]. split; [reflexivity|].
  exact (filter_set_last_wins g_alice FILTER_SIPFROM (Some "bob"%string) None
           g_bob (after_filter_clear g_bob FILTER_SIPFROM) eq_refl eq_refl).
Defined.

Lemma filter_set_commute_witness :
  FILTER_SIPFROM <> FILTER_PAYLOAD /\
  filter_set g_alice FILTER_SIPFROM (Some "bob"%string) = Some (0, g_bob) /\
  filter_set g_bob FILTER_PAYLOAD (Some "bye"%string) = Some (0, g_bob_bye) /\
  exists g2,
    filter_set g_alice FILTER_PAYLOAD (Some "bye"%string) = Some (0, g2) /\
    filter_set g2 FILTER_SIPFROM (Some "bob"%string) = Some (0, g_bob_bye).
Proof.
  split; [done|]. split; [reflexivity|]. split; [reflexivity|].
  exact (filter_set_commute g_alice FILTER_SIPFROM (Some "bob"%string)
           FILTER_PAYLOAD (Some "bye"%string) g_bob g_bob_bye
           ltac:(done) eq_refl eq_refl).
Defined.

Lemma filter_check_call_no_filter_witness :
  (forall i, 0 <= i < FILTER_COUNT ->
             filter_enabled (with_calls [call_alice]) i = false) /\
  call_msg_count call_alice <> 0 /\
  filtered call_alice = FILTERED_UNKNOWN /\
  filter_check_call (with_calls [call_alice]) call_alice =
    (true, {| st_call := call_set_filtered FILTERED_PASS call_alice;
              st_evals := [] |}).
Proof.
  assert (forall i, 0 <= i < FILTER_COUNT ->
                    filter_enabled (with_calls [call_alice]) i = false) as Hoff.
  { intros i Hi.
    assert (i = 0 \/ i = 1 \/ i = 2 \/ i = 3 \/ i = 4 \/ i = 5 \/ i = 6)
      as Hcases by (unfold FILTER_COUNT in Hi; lia).
    by destruct Hcases as [->|[->|[->|[->|[->|[->| ->]]]]]]. }
  split; [exact Hoff|]. split; [done|]. split; [reflexivity|].
  exact (filter_check_call_no_filter
           Literal.call_get_attribute Literal.call_list_line_text
           (with_calls [call_alice]) call_alice Hoff ltac:(done) eq_refl).
Defined.

Lemma filter_check_call_evals_witness :
  call_msg_count call_alice <> 0 /\
  filtered call_alice = FILTERED_UNKNOWN /\
  st_evals (filter_check_call g_bye call_alice).2 =
    evals_over g_bye call_alice (seqZ 0 FILTER_COUNT).
Proof.
  split; [done|]. split; [reflexivity|].
  exact (filter_check_call_evals
           Literal.call_get_attribute Literal.call_list_line_text
           Runs.literal_attribute_filtered Runs.literal_line_text_filtered
           g_bye call_alice ltac:(done) eq_refl).
Defined.

Lemma filter_check_call_short_circuit_witness :
  call_msg_count call_bob <> 0 /\
  filtered call_bob = FILTERED_UNKNOWN /\
  0 <= FILTER_SIPFROM < FILTER_COUNT /\
  filter_enabled g_alice_bye FILTER_SIPFROM = true /\
  call_matches g_alice_bye FILTER_SIPFROM call_bob = false /\
  Forall (fun e => e.1 <= FILTER_SIPFROM /\ filter_enabled g_alice_bye e.1 = true)
         (st_evals (filter_check_call g_alice_bye call_bob).2).
Proof.
  split; [done|]. split; [reflexivity|]. split; [done|].
  split; [reflexivity|]. split; [reflexivity|].
  exact (filter_check_call_short_circuit
           Literal.call_get_attribute Literal.call_list_line_text
           Runs.literal_attribute_filtered Runs.literal_line_text_filtered
           g_alice_bye call_bob FILTER_SIPFROM
           ltac:(done) eq_refl ltac:(done) eq_refl eq_refl).
Defined.

Lemma call_bob_listed :
  call_bob ∈ sip_calls_iterator (calls (filter_reset_calls g_bob)).
Proof. right. left. Qed.

Lemma filter_change_takes_effect_witness :
  length (filters g_alice) = Z.to_nat FILTER_COUNT /\
  filter_set g_alice FILTER_SIPFROM (Some "bob"%string) = Some (0, g_bob) /\
  call_msg_count call_bob <> 0 /\
  ((filter_check_call (filter_reset_calls g_bob) call_bob).1 = true <->
   forall i, 0 <= i < FILTER_COUNT ->
             filter_enabled g_bob i = true -> call_matches g_bob i call_bob = true).
Proof.
  split; [reflexivity|]. split; [reflexivity|]. split; [done|].
  exact (proj1 (filter_change_takes_effect
                  Literal.call_get_attribute Literal.call_list_line_text
                  Runs.literal_attribute_filtered Runs.literal_line_text_filtered
                  g_alice FILTER_SIPFROM (Some "bob"%string) g_bob call_bob
                  eq_refl eq_refl call_bob_listed ltac:(done))).
Defined.

Lemma sample_ids_differ : NoDup [0; 1; 2; 3].
Proof. compute_done. Qed.

Lemma ui_destroy_without_destructor_witness :
  NoDup [0; 1; 2; 3] /\
  map ui_declared (pool ui_raw) = map ui_declared sample_pool /\
  events (ui_destroy ui_raw (ui_find_by_type ui_raw 3)) = events ui_raw /\
  ui_get_panel (ui_destroy ui_raw (ui_find_by_type ui_raw 3))
               (ui_find_by_type ui_raw 3) = None.
Proof.
  split; [exact sample_ids_differ|]. split; [reflexivity|].
  exact (proj2 (ui_destroy_without_destructor 0 1 2 3 ui_raw 3
                  sample_ids_differ eq_refl) (or_intror eq_refl)).
Defined.

(** The raw panel is created once and found by its pointer; the second
    [ui_create] calls no creator; [ui_destroy] drops the pointer and calls
    no destructor, and the next [ui_create] makes another panel. *)
Example raw_panel_life_cycle :
  ui_get_panel ui_raw (Some 3%nat) = Some 3%nat /\
  ui_find_by_panel ui_raw (Some 3%nat) = Some 3%nat /\
  ui_find_by_panel ui_raw None = Some 0%nat /\
  (ui_create created ui_raw 3).2 = ui_raw /\
  events (ui_destroy ui_raw (Some 3%nat)) = [Created 3 (Some 3%nat)] /\
  events (ui_create created (ui_destroy ui_raw (Some 3%nat)) 3).2 =
    [Created 3 (Some 3%nat); Created 3 (Some 13%nat)] /\
  (ui_create created ui_start 7).1 = None.
Proof. by vm_compute. Qed.

End MoreRuns.
